(** * Homie orchestrator: container lifecycle, health, scheduling, backup

  A shallow embedding of the four core components of the orchestrator
  ([container_manager.py], [health_monitor.py], [scheduler.py],
  [backup_manager.py]) and the properties of its specification that can
  be settled on them.

  Python objects that are mutated in place and shared (the registry
  dict, [Container] objects, [Task] objects) are modelled by explicit
  state; external collaborators (the Docker daemon, APScheduler and
  croniter, the filesystem) are modelled as state machines whose calls
  can fail where the real ones can. *)

From Stdlib Require Import ZArith QArith Ascii String List.
From Stdlib Require Floats.PrimFloat Floats.FloatOps Floats.SpecFloat.
From Stdlib Require Numbers.Cyclic.Int63.Uint63.
From stdpp Require Import gmap strings list fin_maps sorting.

Local Open Scope string_scope.
Local Open Scope Z_scope.

(** ** Python control flow: results, exceptions, mutable state *)

Module Py.

(** The exception classes the modelled code can meet.  [exception] holds
    the subclasses of Python's [Exception]: [DockerException] stands for
    [docker.errors.DockerException] and its subclasses ([APIError],
    [NotFound], [ImageNotFound]); [ConflictingIdError] is APScheduler's;
    [ActionError] is any [Exception] a scheduled action raises; the
    others are builtin. *)
Inductive exception :=
| DockerException
| ValueError
| OverflowError
| UnicodeDecodeError
| OSError
| ConflictingIdError
| ActionError.

(** What a [raise] can carry: an [Exception], or one of the classes that
    derive from [BaseException] only and that [except Exception] lets
    through. *)
Inductive exn :=
| Exception (e : exception)
| CancelledError
| SystemExit
| KeyboardInterrupt.

Coercion Exception : exception >-> exn.

#[global] Instance exception_eq_dec : EqDecision exception.
Proof. solve_decision. Defined.

#[global] Instance exn_eq_dec : EqDecision exn.
Proof. solve_decision. Defined.

Inductive result (A : Type) :=
| Ret (a : A)
| Raise (e : exn).
Arguments Ret {A} a.
Arguments Raise {A} e.

(** A computation on a mutable state [S].  The state survives an
    exception: what was mutated before the [raise] stays mutated. *)
Definition M (S A : Type) : Type := S -> result A * S.

Section Ops.
Context {S : Type}.

Definition ret {A} (a : A) : M S A := fun s => (Ret a, s).

Definition raise {A} (e : exn) : M S A := fun s => (Raise e, s).

Definition bind {A B} (m : M S A) (k : A -> M S B) : M S B :=
  fun s =>
    match m s with
    | (Ret a, s') => k a s'
    | (Raise e, s') => (Raise e, s')
    end.

(** A pure computation that may raise. *)
Definition of_result {A} (r : result A) : M S A := fun s => (r, s).

Definition get : M S S := fun s => (Ret s, s).

Definition modify (f : S -> S) : M S unit := fun s => (Ret tt, f s).

(** [try: body / except <classes>: handler]. *)
Definition try_except {A} (body : M S A) (caught : exn -> bool)
           (handler : exn -> M S A) : M S A :=
  fun s =>
    match body s with
    | (Ret a, s') => (Ret a, s')
    | (Raise e, s') => if caught e then handler e s' else (Raise e, s')
    end.
End Ops.

(** [except docker.errors.DockerException]. *)
Definition is_docker (e : exn) : bool :=
  match e with Exception DockerException => true | _ => false end.

(** [except Exception]. *)
Definition is_exception (e : exn) : bool :=
  match e with Exception _ => true | _ => false end.

Declare Scope py_scope.
Delimit Scope py_scope with py.
Module Notations.
Notation "x <- c1 ;; c2" := (bind c1 (fun x => c2))
(at level 100, c1 at next level, right associativity) : py_scope.
Notation "c1 ;; c2" := (bind c1 (fun _ => c2))
(at level 100, right associativity) : py_scope.
End Notations.

End Py.

(** ** The container runtime (external collaborator)

  The Docker daemon as the docker SDK shows it to the manager: a table
  of containers, the local image store, and the record of the requests
  it received.  Every request can be refused for a reason outside the
  orchestrator (daemon unreachable, resource limits): [d_faults] is the
  schedule of such refusals, one flag per request in arrival order. *)

Module Docker.
Import Py Py.Notations.
Local Open Scope py_scope.

Inductive call :=
| CList
| CCreate (name image : string)
| CConnect (net : string) (cid : nat)
| CStart (cid : nat)
| CStop (cid : nat) (timeout : Z)
| CRemove (cid : nat) (force : bool)
| CReload (cid : nat)
| CImage (cid : nat)
| CLogs (cid : nat) (tail : nat)
| CStats (cid : nat)
| CPull (image : string).

Record dcontainer := {
  dc_name : string;
  dc_status : string;
  dc_image : string;
  dc_labels : gmap string string;
  dc_networks : list string;
  dc_logs : list string;      (* log lines, oldest first *)
  dc_logs_utf8 : bool;        (* whether the log bytes decode as UTF-8 *)
  dc_stats : string           (* the stats document, kept opaque *)
}.

Definition dc_with_status (st : string) (c : dcontainer) : dcontainer :=
  {| dc_name := dc_name c; dc_status := st; dc_image := dc_image c;
     dc_labels := dc_labels c; dc_networks := dc_networks c;
     dc_logs := dc_logs c; dc_logs_utf8 := dc_logs_utf8 c;
     dc_stats := dc_stats c |}.

Definition dc_with_network (net : string) (c : dcontainer) : dcontainer :=
  {| dc_name := dc_name c; dc_status := dc_status c; dc_image := dc_image c;
     dc_labels := dc_labels c; dc_networks := dc_networks c ++ [net];
     dc_logs := dc_logs c; dc_logs_utf8 := dc_logs_utf8 c;
     dc_stats := dc_stats c |}.

Record daemon := {
  d_containers : gmap nat dcontainer;
  d_used : gset nat;            (* every id handed out so far *)
  d_images : gset string;
  d_faults : list bool;
  d_calls : list call
}.

Definition set_containers (f : gmap nat dcontainer -> gmap nat dcontainer)
           (d : daemon) : daemon :=
  {| d_containers := f (d_containers d); d_used := d_used d;
     d_images := d_images d;
     d_faults := d_faults d; d_calls := d_calls d |}.

Definition set_used (f : gset nat -> gset nat) (d : daemon) : daemon :=
  {| d_containers := d_containers d; d_used := f (d_used d);
     d_images := d_images d;
     d_faults := d_faults d; d_calls := d_calls d |}.

Definition set_images (f : gset string -> gset string) (d : daemon) : daemon :=
  {| d_containers := d_containers d; d_used := d_used d;
     d_images := f (d_images d);
     d_faults := d_faults d; d_calls := d_calls d |}.

(** Arrival of a request: it is recorded, the next refusal flag is
    consumed, and a refused request raises without any effect. *)
Definition request (c : call) : M daemon unit :=
  fun d =>
    let d' := {| d_containers := d_containers d; d_used := d_used d;
                 d_images := d_images d;
                 d_faults := tail (d_faults d);
                 d_calls := d_calls d ++ [c] |} in
    match d_faults d with
    | true :: _ => (Raise DockerException, d')
    | _ => (Ret tt, d')
    end.

(** An existing container, or 404. *)
Definition lookup_container (cid : nat) : M daemon dcontainer :=
  d <- get ;;
  match d_containers d !! cid with
  | Some c => ret c
  | None => raise DockerException
  end.

Definition name_in_use (name : string) (d : daemon) : bool :=
  bool_decide (Exists (fun kc => dc_name kc.2 = name)
                      (map_to_list (d_containers d))).

(** [containers.list(all=True, filters={"label": k=v})]. *)
Definition api_list (k v : string) : M daemon (list (nat * dcontainer)) :=
  request CList ;;
  d <- get ;;
  ret (filter (fun kc => dc_labels kc.2 !! k = Some v)
              (map_to_list (d_containers d))).

(** [containers.create]: 409 when the name is taken, 404 when the image
    is not in the local store; the new container is in state [created]
    and bears an id that was never used before. *)
Definition api_create (name image : string) (labels : gmap string string)
  : M daemon nat :=
  request (CCreate name image) ;;
  d <- get ;;
  if name_in_use name d then raise DockerException
  else if bool_decide (image ∈ d_images d) then
    let cid := fresh (dom (d_containers d) ∪ d_used d) in
    modify (set_used (fun s => {[cid]} ∪ s)) ;;
    modify (set_containers
              <[cid := {| dc_name := name; dc_status := "created";
                          dc_image := image; dc_labels := labels;
                          dc_networks := []; dc_logs := [];
                          dc_logs_utf8 := true; dc_stats := "{}" |}]>) ;;
    ret cid
  else raise DockerException.

Definition api_connect (net : string) (cid : nat) : M daemon unit :=
  request (CConnect net cid) ;;
  _ <- lookup_container cid ;;
  modify (set_containers (alter (dc_with_network net) cid)).

Definition api_start (cid : nat) : M daemon unit :=
  request (CStart cid) ;;
  _ <- lookup_container cid ;;
  modify (set_containers (alter (dc_with_status "running") cid)).

(** [container.stop(timeout=...)]: a container that runs ends up
    [exited]; for one that does not the request changes nothing. *)
Definition api_stop (cid : nat) (timeout : Z) : M daemon unit :=
  request (CStop cid timeout) ;;
  c <- lookup_container cid ;;
  if bool_decide (dc_status c ∈ ["running"; "restarting"; "paused"])
  then modify (set_containers (alter (dc_with_status "exited") cid))
  else ret tt.

(** [container.remove(force=...)]: 409 for a running container unless
    forced. *)
Definition api_remove (cid : nat) (force : bool) : M daemon unit :=
  request (CRemove cid force) ;;
  c <- lookup_container cid ;;
  if bool_decide (dc_status c = "running") && negb force
  then raise DockerException
  else modify (set_containers (delete cid)).

(** [container.reload()]: a fresh inspect of the container. *)
Definition api_reload (cid : nat) : M daemon dcontainer :=
  request (CReload cid) ;;
  lookup_container cid.

(** [container.image]: one more request, for the image of the container. *)
Definition api_image (cid : nat) : M daemon string :=
  request (CImage cid) ;;
  c <- lookup_container cid ;;
  ret (dc_image c).

Definition last_n {A} (n : nat) (l : list A) : list A :=
  drop (length l - n) l.

Definition api_logs (cid : nat) (tail : nat) : M daemon (list string * bool) :=
  request (CLogs cid tail) ;;
  c <- lookup_container cid ;;
  ret (last_n tail (dc_logs c), dc_logs_utf8 c).

Definition api_stats (cid : nat) : M daemon string :=
  request (CStats cid) ;;
  c <- lookup_container cid ;;
  ret (dc_stats c).

Definition api_pull (image : string) : M daemon unit :=
  request (CPull image) ;;
  modify (set_images (fun s => {[image]} ∪ s)).

End Docker.

(** ** Container Lifecycle Manager ([core/container_manager.py]) *)

Module ContainerManager.
Import Py Py.Notations Docker.
Local Open Scope py_scope.

(** [class ContainerStatus]. *)
Definition RUNNING : string := "running".
Definition STOPPED : string := "stopped".
Definition STARTING : string := "starting".
Definition STOPPING : string := "stopping".
Definition ERROR : string := "error".
Definition UNKNOWN : string := "unknown".

(** *** Resource limits *)

Module Limits.
Import PrimFloat.

(** [int(x)] for a float: the integer part; NaN and the infinities have
    none. *)
Definition int_of_float (x : float) : result Z :=
  match FloatOps.Prim2SF x with
  | SpecFloat.S754_nan => Raise ValueError
  | SpecFloat.S754_infinity _ => Raise OverflowError
  | SpecFloat.S754_zero _ => Ret 0
  | SpecFloat.S754_finite sign m e =>
      let magnitude :=
        if 0 <=? e then Z.pos m * 2 ^ e else Z.pos m / 2 ^ (- e) in
      Ret (if sign then - magnitude else magnitude)
  end.

(** The factor [100000] of [_prepare_container_config]. *)
Definition cfs_period : float := 100000.

(** [if config.cpu_limit: ... int(config.cpu_limit * 100000)]: a float is
    true unless it is zero. *)
Definition cpu_quota (cpu_limit : option float) : result (option Z) :=
  match cpu_limit with
  | None => Ret None
  | Some x =>
      if is_zero x then Ret None
      else match int_of_float (x * cfs_period)%float with
           | Ret q => Ret (Some q)
           | Raise e => Raise e
           end
  end.

End Limits.

(** The fields of [ServiceConfig] that decide what the manager does.
    [cpu_limit] is a binary64 number, NaN and the infinities included.
    The remaining fields (environment, command, entrypoint, working
    directory, user, privileged, capabilities, devices, memory limit)
    are tested for truth and stored in the launch specification as they
    are, which cannot raise. *)
Record ServiceConfig := {
  image : string;
  ports : list string;
  volumes : list string;
  labels : gmap string string;
  cpu_limit : option PrimFloat.float
}.

(** The client-side [Container] object: the id it refers to, and the name
    and status cached in its [attrs] by the last inspect. *)
Record Container := {
  c_id : nat;
  c_name : string;
  c_status : string
}.

Record manager := {
  client : daemon;
  network : option string;
  _containers : gmap string Container
}.

Definition set_client (d : daemon) (m : manager) : manager :=
  {| client := d; network := network m; _containers := _containers m |}.

Definition set_registry (f : gmap string Container -> gmap string Container)
           (m : manager) : manager :=
  {| client := client m; network := network m;
     _containers := f (_containers m) |}.

(** A call on [self.client] (or on an object obtained from it). *)
Definition on_client {A} (c : M daemon A) : M manager A :=
  fun m => let '(r, d) := c (client m) in (r, set_client d m).

(** [str.split(sep)] for a one-character separator. *)
Fixpoint split_on (sep : ascii) (s : string) : list string :=
  match s with
  | EmptyString => [EmptyString]
  | String a s' =>
      if Ascii.eqb a sep then EmptyString :: split_on sep s'
      else match split_on sep s' with
           | p :: ps => String a p :: ps
           | [] => [String a EmptyString]
           end
  end.

(** [a, b = s.split(":")]: unpacking needs exactly two parts. *)
Definition unpack2 (s : string) : result (string * string) :=
  match split_on ":" s with
  | [a; b] => Ret (a, b)
  | _ => Raise ValueError
  end.

Fixpoint prepare_volumes (vs : list string) (acc : gmap string string)
  : result (gmap string string) :=
  match vs with
  | [] => Ret acc
  | v :: vs' =>
      match unpack2 v with
      | Ret (host_path, container_path) =>
          prepare_volumes vs' (<[host_path := container_path]> acc)
      | Raise e => Raise e
      end
  end.

Fixpoint prepare_ports (ps : list string) (acc : gmap string string)
  : result (gmap string string) :=
  match ps with
  | [] => Ret acc
  | port_mapping :: ps' =>
      if bool_decide (1 < length (split_on ":" port_mapping))%nat then
        match unpack2 port_mapping with
        | Ret (host_port, container_port) =>
            prepare_ports ps' (<[container_port ++ "/tcp" := host_port]> acc)
        | Raise e => Raise e
        end
      else prepare_ports ps' (<[port_mapping ++ "/tcp" := port_mapping]> acc)
  end.

Record container_config := {
  cc_image : string;
  cc_name : string;
  cc_labels : gmap string string;
  cc_volumes : gmap string string;
  cc_ports : gmap string string;
  cc_cpu_quota : option Z
}.

Definition _prepare_container_config (service_name : string)
           (config : ServiceConfig) : result container_config :=
  let lbls := labels config ∪
              <["io.homie.managed" := "true"]>
                (<["io.homie.service" := service_name]> ∅) in
  match prepare_volumes (volumes config) ∅ with
  | Raise e => Raise e
  | Ret vols =>
      match prepare_ports (ports config) ∅ with
      | Raise e => Raise e
      | Ret prts =>
          match Limits.cpu_quota (cpu_limit config) with
          | Raise e => Raise e
          | Ret quota =>
              Ret {| cc_image := image config;
                     cc_name := "homie_" ++ service_name;
                     cc_labels := lbls; cc_volumes := vols; cc_ports := prts;
                     cc_cpu_quota := quota |}
          end
      end
  end.

(** [_discover_containers]: the registry is rebuilt from the containers
    the runtime reports as managed, keyed by their service label. *)
Fixpoint register_discovered (cs : list (nat * dcontainer)) : M manager unit :=
  match cs with
  | [] => ret tt
  | (cid, dc) :: cs' =>
      match dc_labels dc !! "io.homie.service" with
      | Some service_name =>
          if bool_decide (service_name = EmptyString) then register_discovered cs'
          else
            modify (set_registry
                      <[service_name := {| c_id := cid; c_name := dc_name dc;
                                           c_status := dc_status dc |}]>) ;;
            register_discovered cs'
      | None => register_discovered cs'
      end
  end.

Definition _discover_containers : M manager unit :=
  try_except
    (containers <- on_client (api_list "io.homie.managed" "true") ;;
     register_discovered containers)
    is_docker
    (fun _ => ret tt).

Definition create_container (service_name : string) (config : ServiceConfig)
  : M manager bool :=
  try_except
    (container_config <- of_result (_prepare_container_config service_name config) ;;
     cid <- on_client (api_create (cc_name container_config)
                                  (cc_image container_config)
                                  (cc_labels container_config)) ;;
     m <- get ;;
     match network m with
     | Some net => on_client (api_connect net cid)
     | None => ret tt
     end ;;
     modify (set_registry
               <[service_name := {| c_id := cid;
                                    c_name := cc_name container_config;
                                    c_status := "created" |}]>) ;;
     ret true)
    is_docker
    (fun _ => ret false).

Definition start_container (service_name : string) : M manager bool :=
  try_except
    (m <- get ;;
     match _containers m !! service_name with
     | None => ret false
     | Some container =>
         on_client (api_start (c_id container)) ;;
         ret true
     end)
    is_docker
    (fun _ => ret false).

Definition stop_container (service_name : string) (timeout : Z)
  : M manager bool :=
  try_except
    (m <- get ;;
     match _containers m !! service_name with
     | None => ret false
     | Some container =>
         on_client (api_stop (c_id container) timeout) ;;
         ret true
     end)
    is_docker
    (fun _ => ret false).

Definition remove_container (service_name : string) (force : bool)
  : M manager bool :=
  try_except
    (m <- get ;;
     match _containers m !! service_name with
     | None => ret false
     | Some container =>
         (if bool_decide (c_status container = "running")
          then _ <- stop_container service_name 30 ;; ret tt
          else ret tt) ;;
         on_client (api_remove (c_id container) force) ;;
         modify (set_registry (delete service_name)) ;;
         ret true
     end)
    is_docker
    (fun _ => ret false).

(** [container.reload()]: the runtime is asked again and the object's
    cached status is replaced. *)
Definition reload (service_name : string) (container : Container)
  : M manager Container :=
  dc <- on_client (api_reload (c_id container)) ;;
  let container' := {| c_id := c_id container; c_name := dc_name dc;
                       c_status := dc_status dc |} in
  modify (set_registry (<[service_name := container']>)) ;;
  ret container'.

Definition get_container_status (service_name : string) : M manager string :=
  try_except
    (m <- get ;;
     match _containers m !! service_name with
     | None => ret UNKNOWN
     | Some container =>
         container' <- reload service_name container ;;
         ret (c_status container')
     end)
    is_docker
    (fun _ => ret ERROR).

(** The result is a [str] in every branch of the source; [option] leaves
    room for Python's [None]. *)
Definition get_container_logs (service_name : string) (tail : nat)
  : M manager (option string) :=
  try_except
    (m <- get ;;
     match _containers m !! service_name with
     | None => ret (Some "Container not found")
     | Some container =>
         logs <- on_client (api_logs (c_id container) tail) ;;
         if logs.2 then ret (Some (String.concat EmptyString logs.1))
         else raise UnicodeDecodeError
     end)
    is_docker
    (fun _ => ret (Some "Error getting logs: docker error")).

Definition get_container_stats (service_name : string)
  : M manager (option string) :=
  try_except
    (m <- get ;;
     match _containers m !! service_name with
     | None => ret None
     | Some container =>
         stats <- on_client (api_stats (c_id container)) ;;
         ret (Some stats)
     end)
    is_docker
    (fun _ => ret None).

(** One value of the dict returned by [list_containers]; the keys
    [created], [ports] and [labels] are left out. *)
Record container_info := {
  ci_id : option nat;
  ci_name : option string;
  ci_status : option string;
  ci_image : option string;
  ci_error : option string
}.

(** The body of the loop of [list_containers] for one registry item.
    [container.image] is looked up twice, once for the test of the
    conditional expression and once for its value. *)
Definition list_entry (service_name : string) (container : Container)
  : M manager container_info :=
  try_except
    (container' <- reload service_name container ;;
     _ <- on_client (api_image (c_id container')) ;;
     img <- on_client (api_image (c_id container')) ;;
     ret {| ci_id := Some (c_id container'); ci_name := Some (c_name container');
            ci_status := Some (c_status container');
            ci_image := Some img; ci_error := None |})
    is_docker
    (fun _ => ret {| ci_id := None; ci_name := None;
                     ci_status := Some ERROR; ci_image := None;
                     ci_error := Some "docker error" |}).

Fixpoint list_loop (items : list (string * Container))
         (result : gmap string container_info)
  : M manager (gmap string container_info) :=
  match items with
  | [] => ret result
  | (service_name, container) :: items' =>
      info <- list_entry service_name container ;;
      list_loop items' (<[service_name := info]> result)
  end.

Definition list_containers : M manager (gmap string container_info) :=
  m <- get ;;
  list_loop (map_to_list (_containers m)) ∅.

Definition pull_image (img : string) : M manager bool :=
  try_except
    (on_client (api_pull img) ;; ret true)
    is_docker
    (fun _ => ret false).

Definition update_container (service_name : string) (config : ServiceConfig)
  : M manager bool :=
  try_except
    (_ <- stop_container service_name 30 ;;
     _ <- remove_container service_name false ;;
     _ <- pull_image (image config) ;;
     _ <- create_container service_name config ;;
     _ <- start_container service_name ;;
     ret true)
    is_exception
    (fun _ => ret false).

(** *** Vocabulary of the properties *)



(** The number of occurrences of a character in a string. *)
Fixpoint count_char (c : ascii) (s : string) : nat :=
  match s with
  | EmptyString => 0
  | String a s' => (if Ascii.eqb a c then 1 else 0) + count_char c s'
  end.

(** The state of a manager that starts on the runtime [d] with an empty
    registry, as after a restart of the orchestrator. *)
Definition restarted (net : option string) (d : daemon) : manager :=
  {| client := d; network := net; _containers := ∅ |}.

(** The labels of a container created for a service: the management
    labels, overridden by the configuration's own. *)
Definition managed_labels (service_name : string) (cfg : ServiceConfig)
  : gmap string string :=
  labels cfg ∪ <["io.homie.managed" := "true"]>
                 (<["io.homie.service" := service_name]> ∅).

(** What an entry of the listing says about the instance [c] refers to,
    in a runtime whose containers are [D]. *)
Definition reports (D : gmap nat dcontainer) (c : Container)
           (info : container_info) : Prop :=
  (ci_error info = None →
     ∃ dc, D !! c_id c = Some dc
           ∧ ci_id info = Some (c_id c) ∧ ci_name info = Some (dc_name dc)
           ∧ ci_status info = Some (dc_status dc)
           ∧ ci_image info = Some (dc_image dc))
  ∧ (is_Some (ci_error info) → ci_status info = Some ERROR)
  ∧ (D !! c_id c = None → is_Some (ci_error info)).

(** None of the next [n] requests is refused. *)
Definition answered (n : nat) (faults : list bool) : Prop :=
  ∀ i, (i < n)%nat → faults !! i ≠ Some true.

(** The two shapes of an entry of the listing. *)
Definition full_entry (cid : nat) (dc : dcontainer) : container_info :=
  {| ci_id := Some cid; ci_name := Some (dc_name dc);
     ci_status := Some (dc_status dc); ci_image := Some (dc_image dc);
     ci_error := None |}.

Definition error_entry : container_info :=
  {| ci_id := None; ci_name := None; ci_status := Some ERROR;
     ci_image := None; ci_error := Some "docker error" |}.

(** The registry entry discovery makes for a container. *)
Definition discovered_entry (cid : nat) (dc : dcontainer) : Container :=
  {| c_id := cid; c_name := dc_name dc; c_status := dc_status dc |}.

(** The registry after one container of the runtime's answer. *)
Definition register_one (r : gmap string Container) (kc : nat * dcontainer)
  : gmap string Container :=
  match dc_labels kc.2 !! "io.homie.service" with
  | Some service_name =>
      if bool_decide (service_name = EmptyString) then r
      else <[service_name := discovered_entry kc.1 kc.2]> r
  | None => r
  end.

(** The runtime's answer to the discovery request. *)
Definition managed_containers (d : daemon) : list (nat * dcontainer) :=
  filter (λ kc, dc_labels kc.2 !! "io.homie.managed" = Some "true")
         (map_to_list (d_containers d)).

End ContainerManager.



(** ** Health Monitor ([core/health_monitor.py]) *)

Module HealthMonitor.
Import Py Py.Notations ContainerManager.
Local Open Scope py_scope.

(** [api.models.HealthCheck]. *)
Record HealthCheck := {
  service : string;
  status : string;
  message : option string;
  last_check : Z
}.

(** The monitor, the manager it samples, and the wall clock read by
    [datetime.now()]. *)
Record monitor := {
  container_manager : manager;
  health_checks : gmap string HealthCheck;
  now : Z
}.

Definition set_manager (cm : manager) (h : monitor) : monitor :=
  {| container_manager := cm; health_checks := health_checks h; now := now h |}.

Definition set_checks (f : gmap string HealthCheck -> gmap string HealthCheck)
           (h : monitor) : monitor :=
  {| container_manager := container_manager h;
     health_checks := f (health_checks h); now := now h |}.

Definition on_manager {A} (c : M manager A) : M monitor A :=
  fun h => let '(r, cm) := c (container_manager h) in (r, set_manager cm h).

(** The [if]/[elif] chain of [_check_container_health]: the verdict and
    its message. *)
Definition classify (container_info : container_info) : string * string :=
  let status := default "unknown" (ci_status container_info) in
  if bool_decide (status = "running") then
    ("healthy", "Container is running normally")
  else if bool_decide (status = "restarting") then
    ("warning", "Container is restarting")
  else if bool_decide (status ∈ ["stopped"; "exited"]) then
    ("unhealthy", "Container is " ++ status)
  else match ci_error container_info with
       | Some err => ("error", err)
       | None => ("unknown", "Unknown container status: " ++ status)
       end.

(** Nothing in the [try] block raises on an entry of [list_containers],
    so the [except] branch, which would store an error verdict, is not
    taken. *)
Definition _check_container_health (service_name : string)
           (container_info : container_info) : M monitor unit :=
  h <- get ;;
  let '(health_status, msg) := classify container_info in
  let health_check := {| service := service_name; status := health_status;
                         message := Some msg; last_check := now h |} in
  modify (set_checks <[service_name := health_check]>).

Fixpoint check_each (items : list (string * container_info)) : M monitor unit :=
  match items with
  | [] => ret tt
  | (service_name, container_info) :: items' =>
      _check_container_health service_name container_info ;;
      check_each items'
  end.

Definition _perform_health_checks : M monitor unit :=
  try_except
    (containers <- on_manager list_containers ;;
     check_each (map_to_list containers))
    is_exception
    (fun _ => ret tt).

Definition get_all_health_checks (h : monitor) : list HealthCheck :=
  (map_to_list (health_checks h)).*2.

Record summary := {
  total_services : nat;
  healthy_services : nat;
  unhealthy_services : nat
}.

Record overall := {
  healthy : bool;
  checks : list HealthCheck;
  timestamp : Z;
  summary_of : summary
}.

(** [healthy_count / total_count >= 0.8], with the quotient and the
    literal taken as exact rationals. *)
Definition fraction_ok (healthy_count total_count : nat) : bool :=
  Qle_bool (8 # 10)
           (inject_Z (Z.of_nat healthy_count) / inject_Z (Z.of_nat total_count)).

(** The same test in binary64 arithmetic, as Python evaluates it: the
    quotient is rounded to the nearest double and compared with the
    double nearest to 0.8. *)
Module Binary64.
Import PrimFloat.

Definition float_of_nat (n : nat) : float :=
  of_uint63 (Uint63.of_Z (Z.of_nat n)).

Definition fraction_ok_binary64 (healthy_count total_count : nat) : bool :=
  leb 0x1.999999999999ap-1%float
      (div (float_of_nat healthy_count) (float_of_nat total_count)).

End Binary64.

Definition get_overall_health (h : monitor) : overall :=
  let health_checks := get_all_health_checks h in
  let healthy_count :=
    length (filter (fun check => status check = "healthy") health_checks) in
  let total_count := length health_checks in
  let overall_healthy :=
    bool_decide (total_count = 0%nat) || fraction_ok healthy_count total_count in
  {| healthy := overall_healthy;
     checks := health_checks;
     timestamp := now h;
     summary_of := {| total_services := total_count;
                      healthy_services := healthy_count;
                      unhealthy_services := total_count - healthy_count |} |}.

(** *** Vocabulary of the properties *)

(** Rational and binary64 arithmetic give the same answer for every
    fleet of up to [n] services. *)
Definition arithmetic_agrees_up_to (n : nat) : bool :=
  forallb (λ t, forallb (λ h, Bool.eqb (fraction_ok h t) (Binary64.fraction_ok_binary64 h t))
                        (seq 0 (S t)))
          (seq 1 n).

Definition healthy_count (h : monitor) : nat :=
  length (filter (λ check, status check = "healthy") (get_all_health_checks h)).

Definition total_count (h : monitor) : nat := size (health_checks h).

(** An entry of [list_containers] carries an error field only together
    with the status ["error"]. *)
Definition entry_wf (info : container_info) : Prop :=
  ci_error info = None ∨ ci_status info = Some ERROR.

(** The verdict [_check_container_health] stores at time [t]. *)
Definition verdict_at (t : Z) (service_name : string) (info : container_info)
  : HealthCheck :=
  {| service := service_name; status := (classify info).1;
     message := Some (classify info).2; last_check := t |}.

Definition store_all (t : Z) (items : list (string * container_info))
           (hc : gmap string HealthCheck) : gmap string HealthCheck :=
  foldl (λ acc kv, <[kv.1 := verdict_at t kv.1 kv.2]> acc) hc items.

(** *** The read interface *)

Definition get_service_health (service_name : string) (h : monitor)
  : option HealthCheck :=
  health_checks h !! service_name.

Definition get_unhealthy_services (h : monitor) : list HealthCheck :=
  filter (λ check, status check ∈ ["unhealthy"; "error"; "warning"])
         (map_to_list (health_checks h)).*2.

Definition is_service_healthy (service_name : string) (h : monitor) : bool :=
  match get_service_health service_name h with
  | Some health_check => bool_decide (status health_check = "healthy")
  | None => false
  end.

End HealthMonitor.

(** ** Task Scheduler ([core/scheduler.py]) *)

Module Scheduler.
Import Py Py.Notations.
Local Open Scope py_scope.

(** *** Python's [int(str)], base 10

    A character of a string is a code point below 256.  Surrounding
    whitespace is dropped (tab to carriage return, space, and the two
    whitespace characters above 127, U+0085 and U+00A0; the separators
    U+001C to U+001F are not), one sign is allowed, and the digits,
    which below 256 are [0] to [9] only, may be grouped by single
    underscores.  A text of more than [int_max_str_digits] digits is
    refused, as CPython does with its default setting. *)

Definition is_space (a : ascii) : bool :=
  let n := nat_of_ascii a in
  ((9 <=? n) && (n <=? 13) || (n =? 32) || (n =? 133) || (n =? 160))%nat.

Definition is_digit (a : ascii) : bool :=
  let n := nat_of_ascii a in ((48 <=? n) && (n <=? 57))%nat.

Definition digit_value (a : ascii) : Z := Z.of_nat (nat_of_ascii a) - 48.

Fixpoint lstrip (l : list ascii) : list ascii :=
  match l with
  | a :: l' => if is_space a then lstrip l' else l
  | [] => []
  end.

Definition strip (l : list ascii) : list ascii :=
  rev (lstrip (rev (lstrip l))).

(** [after_digit] tells whether the previous character was a digit: an
    underscore is accepted only between two digits. *)
Fixpoint parse_digits (l : list ascii) (acc : Z) (after_digit : bool)
  : option Z :=
  match l with
  | [] => if after_digit then Some acc else None
  | a :: l' =>
      if is_digit a then parse_digits l' (10 * acc + digit_value a) true
      else if Ascii.eqb a "_" && after_digit then parse_digits l' acc false
      else None
  end.

(** [sys.get_int_max_str_digits()]. *)
Definition int_max_str_digits : nat := 4300.

Definition count_digits (l : list ascii) : nat :=
  length (filter (fun a => is_digit a = true) l).

Definition py_int (l : list ascii) : result Z :=
  let parsed :=
    match strip l with
    | "-"%char :: ds => Z.opp <$> parse_digits ds 0 false
    | "+"%char :: ds => parse_digits ds 0 false
    | ds => parse_digits ds 0 false
    end in
  match parsed with
  | Some n =>
      if bool_decide (int_max_str_digits < count_digits l)%nat
      then Raise ValueError
      else Ret n
  | None => Raise ValueError
  end.

(** [s.endswith(c)] and [s[:-1]]. *)
Definition endswith (l : list ascii) (c : ascii) : bool :=
  match last l with
  | Some a => Ascii.eqb a c
  | None => false
  end.

Definition drop_last (l : list ascii) : list ascii := removelast l.

(** *** The scheduling engine (external collaborator)

    croniter and APScheduler: which strings croniter accepts, which ones
    [CronTrigger.from_crontab] accepts, which intervals
    [IntervalTrigger] accepts, and the next fire time of a trigger. *)

Inductive trigger :=
| CronTrigger (expr : string)
| IntervalTrigger (seconds : Z).

Class Engine := {
  croniter : string -> bool;
  from_crontab : string -> bool;
  interval_trigger : Z -> bool;
  get_next_fire_time : trigger -> Z -> option Z
}.

Section WithEngine.
Context {E : Engine}.
(** The state scheduled actions work on; it is disjoint from the
    scheduler's own state. *)
Context {W : Type}.

Definition action := W -> result unit * W.

(** [Task] and APScheduler's [Job] are objects: they live in a heap and
    are referred to by address, so that the task held by a job and the
    task held by [self.tasks] can be one object. *)
Record Task := {
  task_id : string;
  name : string;
  func : action;
  schedule : string;
  enabled : bool;
  last_run : option Z;
  next_run : option Z;
  job : option nat
}.

Record Job := {
  job_id : string;
  job_trigger : trigger;
  job_args : nat;
  next_run_time : option Z
}.

Record scheduler := {
  task_objects : gmap nat Task;
  job_objects : gmap nat Job;
  jobstore : gmap string nat;       (* [self.scheduler]'s jobs, by id *)
  tasks : gmap string nat;          (* [self.tasks] *)
  clock : Z;                        (* [datetime.now()] *)
  world : W
}.

Definition set_task_objects (f : gmap nat Task -> gmap nat Task)
           (s : scheduler) : scheduler :=
  {| task_objects := f (task_objects s); job_objects := job_objects s;
     jobstore := jobstore s; tasks := tasks s; clock := clock s;
     world := world s |}.

Definition set_job_objects (f : gmap nat Job -> gmap nat Job)
           (s : scheduler) : scheduler :=
  {| task_objects := task_objects s; job_objects := f (job_objects s);
     jobstore := jobstore s; tasks := tasks s; clock := clock s;
     world := world s |}.

Definition set_jobstore (f : gmap string nat -> gmap string nat)
           (s : scheduler) : scheduler :=
  {| task_objects := task_objects s; job_objects := job_objects s;
     jobstore := f (jobstore s); tasks := tasks s; clock := clock s;
     world := world s |}.

Definition set_tasks (f : gmap string nat -> gmap string nat)
           (s : scheduler) : scheduler :=
  {| task_objects := task_objects s; job_objects := job_objects s;
     jobstore := jobstore s; tasks := f (tasks s); clock := clock s;
     world := world s |}.

Definition set_world (w : W) (s : scheduler) : scheduler :=
  {| task_objects := task_objects s; job_objects := job_objects s;
     jobstore := jobstore s; tasks := tasks s; clock := clock s;
     world := w |}.

Definition with_last_run (v : option Z) (t : Task) : Task :=
  {| task_id := task_id t; name := name t; func := func t;
     schedule := schedule t; enabled := enabled t;
     last_run := v; next_run := next_run t; job := job t |}.

Definition with_next_run (v : option Z) (t : Task) : Task :=
  {| task_id := task_id t; name := name t; func := func t;
     schedule := schedule t; enabled := enabled t;
     last_run := last_run t; next_run := v; job := job t |}.

Definition with_job (v : option nat) (t : Task) : Task :=
  {| task_id := task_id t; name := name t; func := func t;
     schedule := schedule t; enabled := enabled t;
     last_run := last_run t; next_run := next_run t; job := v |}.

(** [Task(...)]: a new object. *)
Definition new_task (t : Task) : M scheduler nat :=
  s <- get ;;
  let a := fresh (dom (task_objects s)) in
  modify (set_task_objects <[a := t]>) ;;
  ret a.

(** [self.scheduler.add_job(..., id=..., args=[task])] on a running
    scheduler: a job id can be held once. *)
Definition add_job (tr : trigger) (id : string) (task : nat) : M scheduler nat :=
  s <- get ;;
  match jobstore s !! id with
  | Some _ => raise ConflictingIdError
  | None =>
      let a := fresh (dom (job_objects s)) in
      modify (set_job_objects
                <[a := {| job_id := id; job_trigger := tr; job_args := task;
                          next_run_time := get_next_fire_time tr (clock s) |}]>) ;;
      modify (set_jobstore <[id := a]>) ;;
      ret a
  end.

Definition _is_cron_schedule (schedule : string) : bool := croniter schedule.

Definition _is_interval_schedule (schedule : string) : bool :=
  let l := list_ascii_of_string schedule in
  endswith l "s" || endswith l "m" || endswith l "h" || endswith l "d".

Definition _parse_interval (schedule : string) : result Z :=
  let l := list_ascii_of_string schedule in
  if endswith l "s" then
    match py_int (drop_last l) with Ret n => Ret n | Raise e => Raise e end
  else if endswith l "m" then
    match py_int (drop_last l) with Ret n => Ret (n * 60) | Raise e => Raise e end
  else if endswith l "h" then
    match py_int (drop_last l) with Ret n => Ret (n * 3600) | Raise e => Raise e end
  else if endswith l "d" then
    match py_int (drop_last l) with Ret n => Ret (n * 86400) | Raise e => Raise e end
  else Raise ValueError.

(** The trigger chosen for a schedule string; [None] is the branch that
    logs "Invalid schedule format". *)
Definition make_trigger (schedule : string) : M scheduler (option trigger) :=
  if _is_cron_schedule schedule then
    if from_crontab schedule then ret (Some (CronTrigger schedule))
    else raise ValueError
  else if _is_interval_schedule schedule then
    seconds <- of_result (_parse_interval schedule) ;;
    if interval_trigger seconds then ret (Some (IntervalTrigger seconds))
    else raise ValueError
  else ret None.

Definition add_task (task_id : string) (name : string) (func : action)
           (schedule : string) (enabled : bool) : M scheduler bool :=
  try_except
    (task <- new_task {| task_id := task_id; name := name; func := func;
                         schedule := schedule; enabled := enabled;
                         last_run := None; next_run := None; job := None |} ;;
     proceed <-
       (if enabled then
          tr <- make_trigger schedule ;;
          match tr with
          | None => ret false
          | Some trigger =>
              j <- add_job trigger task_id task ;;
              s <- get ;;
              modify (set_task_objects (alter (with_job (Some j)) task)) ;;
              modify (set_task_objects
                        (alter (with_next_run
                                  (jb ← job_objects s !! j; next_run_time jb))
                               task)) ;;
              ret true
          end
        else ret true) ;;
     if proceed then
       modify (set_tasks <[task_id := task]>) ;;
       ret true
     else ret false)
    is_exception
    (fun _ => ret false).

(** The view of a task that [get_task] returns. *)
Record task_info := {
  ti_id : string;
  ti_name : string;
  ti_schedule : string;
  ti_enabled : bool;
  ti_last_run : option Z;
  ti_next_run : option Z
}.

Definition get_task (id : string) (s : scheduler) : option task_info :=
  a ← tasks s !! id;
  t ← task_objects s !! a;
  Some {| ti_id := task_id t; ti_name := name t; ti_schedule := schedule t;
          ti_enabled := enabled t; ti_last_run := last_run t;
          ti_next_run := next_run t |}.

(** The bound action runs on its own state.  It returns, raises an
    [Exception], or raises one of the classes that [except Exception]
    lets through (a coroutine that is cancelled while it waits raises
    [CancelledError]). *)
Definition call_func (f : action) : M scheduler unit :=
  fun s => let '(r, w) := f (world s) in (r, set_world w s).

Definition _task_wrapper (task : nat) : M scheduler unit :=
  try_except
    (s <- get ;;
     modify (set_task_objects (alter (with_last_run (Some (clock s))) task)) ;;
     match task_objects s !! task with
     | Some t => call_func (func t)
     | None => ret tt
     end ;;
     s' <- get ;;
     match t ← task_objects s' !! task; job t with
     | Some j =>
         modify (set_task_objects
                   (alter (with_next_run
                             (jb ← job_objects s' !! j; next_run_time jb))
                          task))
     | None => ret tt
     end)
    is_exception
    (fun _ => ret tt).

End WithEngine.

(** *** Vocabulary of the properties *)

(** The number a string of decimal digits denotes. *)
Definition decimal (ds : list ascii) : Z :=
  fold_left (λ acc a, 10 * acc + digit_value a) ds 0.

Definition unit_seconds (u : ascii) : option Z :=
  if Ascii.eqb u "s" then Some 1
  else if Ascii.eqb u "m" then Some 60
  else if Ascii.eqb u "h" then Some 3600
  else if Ascii.eqb u "d" then Some 86400
  else None.

(** [<integer><unit>]: a nonempty run of at most [int_max_str_digits]
    decimal digits and a unit letter; [n] is the interval in seconds. *)
Definition interval_form (schedule : string) (n : Z) : Prop :=
  ∃ ds u k, list_ascii_of_string schedule = (ds ++ [u])%list
            ∧ ds ≠ [] ∧ Forall (λ a, is_digit a = true) ds
            ∧ (length ds ≤ int_max_str_digits)%nat
            ∧ unit_seconds u = Some k ∧ n = decimal ds * k.

Arguments Task : clear implicits.
Arguments Job : clear implicits.
Arguments scheduler : clear implicits.
Arguments action : clear implicits.

(** *** Removing, enabling and disabling tasks *)

Section Lifecycle.
Context {E : Engine} {W : Type}.
(** The exception [remove_job] raises for an id the engine does not hold
    ([JobLookupError], a [KeyError]); every caller catches [Exception],
    so which of its subclasses stands for it is left open. *)
Context (JobLookupError : exception).

(** [self.scheduler.remove_job(id)]. *)
Definition remove_job (id : string) : M (scheduler W) unit :=
  s <- get ;;
  match jobstore s !! id with
  | Some _ => modify (set_jobstore (delete id))
  | None => raise JobLookupError
  end.

Definition with_enabled (v : bool) (t : Task W) : Task W :=
  {| task_id := task_id t; name := name t; func := func t;
     schedule := schedule t; enabled := v;
     last_run := last_run t; next_run := next_run t; job := job t |}.

(** In the three operations below the address found in [self.tasks]
    always holds a task object; the branch for an address that holds
    none is never taken. *)
Definition remove_task (task_id : string) : M (scheduler W) bool :=
  try_except
    (s <- get ;;
     match tasks s !! task_id with
     | Some task =>
         match t ← task_objects s !! task; job t with
         | Some _ => remove_job task_id
         | None => ret tt
         end ;;
         modify (set_tasks (delete task_id)) ;;
         ret true
     | None => ret false
     end)
    is_exception
    (fun _ => ret false).

Definition enable_task (task_id : string) : M (scheduler W) bool :=
  try_except
    (s <- get ;;
     match tasks s !! task_id with
     | None => ret false
     | Some task =>
         match task_objects s !! task with
         | None => ret true
         | Some t =>
             if negb (enabled t) then
               modify (set_task_objects (alter (with_enabled true) task)) ;;
               tr <- make_trigger (schedule t) ;;
               match tr with
               | None => ret false
               | Some trigger =>
                   j <- add_job trigger task_id task ;;
                   s' <- get ;;
                   modify (set_task_objects (alter (with_job (Some j)) task)) ;;
                   modify (set_task_objects
                             (alter (with_next_run
                                       (jb ← job_objects s' !! j; next_run_time jb))
                                    task)) ;;
                   ret true
               end
             else ret true
         end
     end)
    is_exception
    (fun _ => ret false).

Definition disable_task (task_id : string) : M (scheduler W) bool :=
  try_except
    (s <- get ;;
     match tasks s !! task_id with
     | None => ret false
     | Some task =>
         match task_objects s !! task with
         | None => ret true
         | Some t =>
             if enabled t then
               modify (set_task_objects (alter (with_enabled false) task)) ;;
               match job t with
               | Some _ =>
                   remove_job task_id ;;
                   modify (set_task_objects (alter (with_job None) task)) ;;
                   modify (set_task_objects (alter (with_next_run None) task))
               | None => ret tt
               end ;;
               ret true
             else ret true
         end
     end)
    is_exception
    (fun _ => ret false).

End Lifecycle.

(** A task table whose addresses all hold a task object. *)
Definition tasks_valid {W} (s : scheduler W) : Prop :=
  ∀ id a, tasks s !! id = Some a → is_Some (task_objects s !! a).

End Scheduler.

(** ** Backup Coordinator ([core/backup_manager.py]) *)

Module BackupManager.
Import Py Py.Notations.
Local Open Scope py_scope.

(** The descriptor written to [metadata.json]. *)
Record metadata := {
  md_timestamp : Z;
  md_orchestrator_version : string;
  md_services : list string;
  md_backup_type : string
}.

(** What a name in the backup directory holds: a directory (the staging
    tree, with the paths copied into it so far and the descriptor
    written to its [metadata.json]), a complete archive (its members by
    the names the archive stores, each with the descriptor it holds when
    it is a JSON document), an archive whose writing was cut short, or a
    symbolic link whose target is missing. *)
Inductive content :=
| Tree (entries : list string) (descriptor : option metadata)
| Archive (members : list (string * option metadata))
| Truncated
| Dangling.

Record node := {
  n_content : content;
  n_size : Z;                       (* [st_size] *)
  n_mtime : Z                       (* [st_mtime], as a local time *)
}.

Inductive archive_outcome :=
| ArchiveWritten            (* the archive is written and closed *)
| ArchiveOpenFails          (* [tarfile.open] raises: no file is created *)
| ArchiveWriteFails.        (* [tar.add] raises: the file exists, cut short *)

(** What the filesystem will do to the operations of one [create_backup]:
    which of them raise. *)
Record faults := {
  f_mkdir : bool;
  f_configs : bool;
  f_service_data : bool;
  f_metadata : bool;
  f_archive : archive_outcome;
  f_rmtree : bool;
  f_cleanup_rmtree : bool;
  f_cleanup_unlink : bool;
  (* what copying the data of a service does when the service name is
     not a single path component, and so leads out of [/data] and of
     the staging directory: the new backup directory, and whether the
     copy raised *)
  f_copy_elsewhere : string -> gmap string node -> result unit * gmap string node
}.

Inductive event :=
| EvMkdir (path : string)
| EvCopyTree (src dst : string)
| EvWriteFile (path : string)
| EvTarOpenW (path : string)
| EvRmtree (path : string)
| EvUnlink (path : string).

Record fs := {
  backup_dir : gmap string node;    (* the children of [self.backup_path] *)
  config_exists : bool;             (* [/config] *)
  data_dirs : option (gset string); (* [/data] and its subdirectories *)
  time : Z;                         (* [datetime.now()] *)
  stamp : string;                   (* its [strftime("%Y%m%d_%H%M%S")] *)
  plan : faults;
  fs_log : list event
}.

Definition set_backup_dir (f : gmap string node -> gmap string node)
           (s : fs) : fs :=
  {| backup_dir := f (backup_dir s); config_exists := config_exists s;
     data_dirs := data_dirs s; time := time s; stamp := stamp s;
     plan := plan s; fs_log := fs_log s |}.

Definition log (e : event) : M fs unit :=
  modify (fun s =>
            {| backup_dir := backup_dir s; config_exists := config_exists s;
               data_dirs := data_dirs s; time := time s; stamp := stamp s;
               plan := plan s; fs_log := fs_log s ++ [e] |}).

Definition fail_if (b : bool) : M fs unit :=
  if b then raise OSError else ret tt.

Definition is_dir (n : node) : bool :=
  match n_content n with Tree _ _ => true | _ => false end.

Definition is_dangling (n : node) : bool :=
  match n_content n with Dangling => true | _ => false end.

(** [path.stat()] follows links. *)
Definition stat (n : node) : result (Z * Z) :=
  if is_dangling n then Raise OSError else Ret (n_size n, n_mtime n).

(** Times are naive local datetimes, as [datetime.now()] and
    [datetime.fromtimestamp] give them, counted in microseconds from
    1970-01-01 00:00:00; [datetime] covers the years 1 to 9999. *)
Definition datetime_min : Z := -62135596800000000.
Definition datetime_max : Z := 253402300799999999.

Definition is_datetime (t : Z) : bool :=
  (datetime_min <=? t) && (t <=? datetime_max).

(** [datetime.fromtimestamp(st_mtime)]: a node carries its modification
    time as the local time it stands for; a time outside the years 1 to
    9999 is refused (with [ValueError], or with [OverflowError] when the
    platform cannot convert it: no caller tells the two apart). *)
Definition fromtimestamp (t : Z) : result Z :=
  if is_datetime t then Ret t else Raise ValueError.

(** [timedelta(days=n)] and [datetime - timedelta]. *)
Definition timedelta_days (days : Z) : result Z :=
  if Z.abs days <=? 999999999 then Ret (days * 86400000000)
  else Raise OverflowError.

Definition datetime_sub (t delta : Z) : result Z :=
  if is_datetime (t - delta) then Ret (t - delta) else Raise OverflowError.

(** What [list_backups] and the retention sweep need of a name the glob
    yields: [stat] succeeds and the modification time is a datetime. *)
Definition can_examine (n : node) : bool :=
  negb (is_dangling n) && is_datetime (n_mtime n).

(** A name that is one path component: joined to a directory with [/] it
    names a child of that directory. *)
Fixpoint has_char (c : ascii) (s : string) : bool :=
  match s with
  | EmptyString => false
  | String a s' => Ascii.eqb a c || has_char c s'
  end.

Definition plain_name (s : string) : bool :=
  negb (String.eqb s EmptyString) && negb (String.eqb s ".")
  && negb (String.eqb s "..")
  && negb (has_char "/" s) && negb (has_char "000" s).


Definition add_entry (e : string) (n : node) : node :=
  match n_content n with
  | Tree es d => {| n_content := Tree (es ++ [e]) d; n_size := n_size n;
                    n_mtime := n_mtime n |}
  | _ => n
  end.









(** [tar.add(temp_dir, arcname=".")]: the directory itself is stored as
    [.] and what it holds under [./<path>]. *)
Definition archive_members (es : list string) (d : option metadata)
  : list (string * option metadata) :=
  (".", None)
    :: map (fun e => ("./" ++ e,
                      if String.eqb e "metadata.json" then d else None)) es.



(** [path.exists()] follows links: a link whose target is missing does
    not exist. *)
Definition exists_ (path : string) : M fs bool :=
  s <- get ;;
  ret (match backup_dir s !! path with
       | Some n => negb (is_dangling n)
       | None => false
       end).




Definition temp_dir_of (timestamp : string) : string := "temp_" ++ timestamp.


(** [glob("orchestrator_backup_*.tar.gz")]. *)
Definition ends_with (suffix s : string) : bool :=
  String.prefix (String.rev suffix) (String.rev s).

Definition is_backup_name (fname : string) : bool :=
  String.prefix "orchestrator_backup_" fname
  && ends_with ".tar.gz" fname
  && bool_decide (String.length "orchestrator_backup_" + String.length ".tar.gz"
                  <= String.length fname)%nat.

(** [tar.getmember("metadata.json")] finds the last member of exactly
    that name; what cannot be opened as an archive has none. *)
Fixpoint getmember (name : string) (members : list (string * option metadata))
  : option (option metadata) :=
  match members with
  | [] => None
  | (member_name, d) :: rest =>
      match getmember name rest with
      | Some found => Some found
      | None => if String.eqb member_name name then Some d else None
      end
  end.

Definition _get_backup_metadata (n : node) : option metadata :=
  match n_content n with
  | Archive members =>
      match getmember "metadata.json" members with
      | Some d => d
      | None => None
      end
  | _ => None
  end.

Record backup_info := {
  filename : string;
  size : Z;
  created_at : Z;
  services : list string;
  orchestrator_version : string
}.

Definition backup_info_of (fname : string) (n : node) : backup_info :=
  let metadata := _get_backup_metadata n in
  {| filename := fname;
     size := n_size n;
     created_at := n_mtime n;
     services := match metadata with Some md => md_services md | None => [] end;
     orchestrator_version :=
       match metadata with
       | Some md => md_orchestrator_version md
       | None => "unknown"
       end |}.

Definition newer_first (a b : backup_info) : Prop := created_at b <= created_at a.

#[global] Instance newer_first_dec a b : Decision (newer_first a b).
Proof. unfold newer_first. apply _. Defined.

(** The loop of [list_backups] over the names the glob yields: [stat]
    comes first, then the descriptor is read and the modification time
    converted; a failure of [stat] or of the conversion ends the loop. *)
Fixpoint collect (found : list (string * node)) : result (list backup_info) :=
  match found with
  | [] => Ret []
  | (backup_file, n) :: rest =>
      match stat n with
      | Raise e => Raise e
      | Ret st =>
          match fromtimestamp st.2 with
          | Raise e => Raise e
          | Ret _ =>
              match collect rest with
              | Ret backups => Ret (backup_info_of backup_file n :: backups)
              | Raise e => Raise e
              end
          end
      end
  end.

Definition list_backups (s : fs) : list backup_info :=
  match collect (filter (fun kn => is_backup_name kn.1 = true)
                        (map_to_list (backup_dir s))) with
  | Ret backups => merge_sort newer_first backups
  | Raise _ => []
  end.

(** *** Vocabulary of the properties *)







(** Every name the glob of backups yields can be examined: none of them
    is a link whose target is missing, or has a modification time
    outside the years 1 to 9999. *)
Definition examinable (s : fs) : Prop :=
  ∀ k n, backup_dir s !! k = Some n → is_backup_name k = true →
         can_examine n = true.

(** *** Deleting archives and the retention sweep *)

Section Housekeeping.
(** The names the filesystem refuses to unlink. *)
Context (refused : string → bool).
(** What deleting does for a name that is not a single path component,
    and so names something that is not a child of the backup directory:
    the answer and the new backup directory. *)
Context (delete_elsewhere : string → gmap string node → bool * gmap string node).

(** [path.unlink()]. *)
Definition unlink_file (path : string) : M fs unit :=
  s <- get ;;
  log (EvUnlink path) ;;
  fail_if (refused path) ;;
  match backup_dir s !! path with
  | Some n => if is_dir n then raise OSError
              else modify (set_backup_dir (delete path))
  | None => raise OSError
  end.

Definition delete_backup (backup_filename : string) : M fs bool :=
  if plain_name backup_filename then
    try_except
      (there <- exists_ backup_filename ;;
       if there then
         unlink_file backup_filename ;;
         ret true
       else ret false)
      is_exception
      (fun _ => ret false)
  else
    s <- get ;;
    let '(answer, d) := delete_elsewhere backup_filename (backup_dir s) in
    modify (set_backup_dir (fun _ => d)) ;;
    ret answer.

(** The loop of [_cleanup_old_backups] over the names the glob yields. *)
Fixpoint sweep (cutoff_date : Z) (found : list (string * node)) : M fs unit :=
  match found with
  | [] => ret tt
  | (backup_file, n) :: rest =>
      st <- of_result (stat n) ;;
      file_date <- of_result (fromtimestamp st.2) ;;
      (if bool_decide (file_date < cutoff_date) then unlink_file backup_file
       else ret tt) ;;
      sweep cutoff_date rest
  end.

(** [retention_days] is the coordinator's setting. *)
Definition _cleanup_old_backups (retention_days : Z) : M fs unit :=
  try_except
    (s <- get ;;
     delta <- of_result (timedelta_days retention_days) ;;
     cutoff_date <- of_result (datetime_sub (time s) delta) ;;
     sweep cutoff_date
           (filter (fun kn => is_backup_name kn.1 = true)
                   (map_to_list (backup_dir s))))
    is_exception
    (fun _ => ret tt).

End Housekeeping.

(** A file of the backup directory that the retention sweep is to
    delete. *)
Definition expired (cutoff_date : Z) (fname : string) (n : node) : Prop :=
  is_backup_name fname = true ∧ n_mtime n < cutoff_date.

(** The state after an operation was recorded. *)
Definition logged (e : event) (s : fs) : fs :=
  {| backup_dir := backup_dir s; config_exists := config_exists s;
     data_dirs := data_dirs s; time := time s; stamp := stamp s;
     plan := plan s; fs_log := fs_log s ++ [e] |}.

(** After [s0] the staging directory [temp] holds the entries [es] and
    the descriptor [d]; nothing else differs. *)
Definition staging (temp : string) (es : list string) (d : option metadata)
           (s0 s1 : fs) : Prop :=
  plan s1 = plan s0 ∧ time s1 = time s0 ∧ stamp s1 = stamp s0
  ∧ config_exists s1 = config_exists s0 ∧ data_dirs s1 = data_dirs s0
  ∧ backup_dir s1 !! temp
    = Some {| n_content := Tree es d; n_size := 0; n_mtime := time s0 |}
  ∧ ∀ k, k ≠ temp → backup_dir s1 !! k = backup_dir s0 !! k.


End BackupManager.

(** ** Concrete states

    The states on which the general theorems are exercised and on which
    the specification's sentences that do not hold are refuted. *)

Module Examples.
Import Py Docker.

(** *** Container manager: one managed container found by discovery *)

Definition web_labels : gmap string string :=
  <["io.homie.managed" := "true"]> (<["io.homie.service" := "web"]> ∅).

(** A running container that carries the orchestrator's labels for the
    service [web] under a name of its own. *)
Definition dc_web : dcontainer :=
  {| dc_name := "custom_web"; dc_status := "running"; dc_image := "nginx:1";
     dc_labels := web_labels; dc_networks := []; dc_logs := [];
     dc_logs_utf8 := true; dc_stats := "{}" |}.

Definition daemon_with (faults : list bool) : daemon :=
  {| d_containers := {[ 0%nat := dc_web ]}; d_used := {[ 0%nat ]};
     d_images := {[ "nginx:1" ]}; d_faults := faults; d_calls := [] |}.

Definition fresh_manager (faults : list bool) : ContainerManager.manager :=
  {| ContainerManager.client := daemon_with faults;
     ContainerManager.network := Some "homie_network";
     ContainerManager._containers := ∅ |}.

(** The manager after [initialize]'s discovery; [faults] is what the
    runtime will do to the requests that follow. *)
Definition discovered (faults : list bool) : ContainerManager.manager :=
  (ContainerManager._discover_containers (fresh_manager (false :: faults))).2.

Definition half : PrimFloat.float := Eval cbv in PrimFloat.div PrimFloat.one PrimFloat.two.

Definition cfg_v1 : ContainerManager.ServiceConfig :=
  {| ContainerManager.image := "nginx:1";
     ContainerManager.ports := ["8080:80"];
     ContainerManager.volumes := ["/srv/web:/usr/share/nginx/html"];
     ContainerManager.labels := ∅;
     ContainerManager.cpu_limit := Some half |}.

(** Configurations whose CPU limit is not a number, or is infinite. *)
Definition cfg_nan : ContainerManager.ServiceConfig :=
  {| ContainerManager.image := "nginx:1";
     ContainerManager.ports := [];
     ContainerManager.volumes := [];
     ContainerManager.labels := ∅;
     ContainerManager.cpu_limit := Some PrimFloat.nan |}.

Definition cfg_unbounded : ContainerManager.ServiceConfig :=
  {| ContainerManager.image := "nginx:1";
     ContainerManager.ports := [];
     ContainerManager.volumes := [];
     ContainerManager.labels := ∅;
     ContainerManager.cpu_limit := Some PrimFloat.infinity |}.



(** *** Health monitor *)

Definition verdict (name st : string) : HealthMonitor.HealthCheck :=
  {| HealthMonitor.service := name; HealthMonitor.status := st;
     HealthMonitor.message := None; HealthMonitor.last_check := 0 |}.

Definition fleet (verdicts : list (string * string)) : HealthMonitor.monitor :=
  {| HealthMonitor.container_manager := fresh_manager [];
     HealthMonitor.health_checks :=
       list_to_map ((λ kv, (kv.1, verdict kv.1 kv.2)) <$> verdicts);
     HealthMonitor.now := 0 |}.

Definition names10 : list string :=
  ["s0"; "s1"; "s2"; "s3"; "s4"; "s5"; "s6"; "s7"; "s8"; "s9"].

(** Ten services, the first [k] of them healthy, the others unhealthy. *)
Definition ten_services (k : nat) : HealthMonitor.monitor :=
  fleet (zip names10 (replicate k "healthy" ++ replicate (10 - k) "unhealthy")).

(** A monitor over the discovered manager, with a stale verdict for
    [web]. *)
Definition sampling : HealthMonitor.monitor :=
  {| HealthMonitor.container_manager := discovered [];
     HealthMonitor.health_checks := {[ "web" := verdict "web" "unhealthy" ]};
     HealthMonitor.now := 42 |}.

(** *** Scheduler *)

(** An engine that takes five blank-separated fields for a cron
    expression and fires intervals from the current time. *)
#[global] Instance engine : Scheduler.Engine :=
  {| Scheduler.croniter s := bool_decide (length (String.words s) = 5%nat);
     Scheduler.from_crontab s := bool_decide (length (String.words s) = 5%nat);
     Scheduler.interval_trigger n := true;
     Scheduler.get_next_fire_time tr t :=
       match tr with
       | Scheduler.IntervalTrigger n => Some (t + n)
       | Scheduler.CronTrigger _ => Some (t + 60)
       end |}.

Definition succeeding : Scheduler.action nat := λ w, (Ret tt, S w).
Definition failing : Scheduler.action nat := λ w, (Raise ActionError, w).

Definition idle : Scheduler.scheduler nat :=
  {| Scheduler.task_objects := ∅; Scheduler.job_objects := ∅;
     Scheduler.jobstore := ∅; Scheduler.tasks := ∅;
     Scheduler.clock := 1000; Scheduler.world := 0%nat |}.

(** The engine's own step when a job is due: time has passed and the
    job's next fire time is recomputed. *)
Definition reschedule (id : string) (t : Z) (s : Scheduler.scheduler nat)
  : Scheduler.scheduler nat :=
  {| Scheduler.task_objects := Scheduler.task_objects s;
     Scheduler.job_objects :=
       match Scheduler.jobstore s !! id with
       | Some j =>
           alter (λ jb, {| Scheduler.job_id := Scheduler.job_id jb;
                           Scheduler.job_trigger := Scheduler.job_trigger jb;
                           Scheduler.job_args := Scheduler.job_args jb;
                           Scheduler.next_run_time :=
                             Scheduler.get_next_fire_time
                               (Scheduler.job_trigger jb) t |})
                 j (Scheduler.job_objects s)
       | None => Scheduler.job_objects s
       end;
     Scheduler.jobstore := Scheduler.jobstore s;
     Scheduler.tasks := Scheduler.tasks s;
     Scheduler.clock := t;
     Scheduler.world := Scheduler.world s |}.

(** A task on a five-minute interval whose action raises, at the moment
    of its first firing. *)
Definition due : Scheduler.scheduler nat :=
  reschedule "t1" 1300 (Scheduler.add_task "t1" "T" failing "5m" true idle).2.

(** The same task with an action that is cancelled while it waits. *)
Definition cancelled : Scheduler.action nat := λ w, (Raise CancelledError, w).

Definition due_cancelled : Scheduler.scheduler nat :=
  reschedule "t1" 1300 (Scheduler.add_task "t1" "T" cancelled "5m" true idle).2.

(** *** Backup coordinator *)

Definition no_faults : BackupManager.faults :=
  {| BackupManager.f_mkdir := false; BackupManager.f_configs := false;
     BackupManager.f_service_data := false; BackupManager.f_metadata := false;
     BackupManager.f_archive := BackupManager.ArchiveWritten;
     BackupManager.f_rmtree := false;
     BackupManager.f_cleanup_rmtree := false;
     BackupManager.f_cleanup_unlink := false;
     BackupManager.f_copy_elsewhere := fun _ d => (Raise OSError, d) |}.



Definition empty_backup_dir (p : BackupManager.faults) : BackupManager.fs :=
  {| BackupManager.backup_dir := ∅; BackupManager.config_exists := true;
     BackupManager.data_dirs := Some {[ "svcA" ]};
     BackupManager.time := 1704067200000000;
     BackupManager.stamp := "20240101_000000";
     BackupManager.plan := p; BackupManager.fs_log := [] |}.

(** One archive from an earlier run, and the same directory with a link
    of a backup's name whose target is missing. *)
Definition earlier_archive : BackupManager.node :=
  {| BackupManager.n_content :=
       BackupManager.Archive
         (BackupManager.archive_members ["config"; "data"; "metadata.json"] None);
     BackupManager.n_size := 3; BackupManager.n_mtime := 1700000000000000 |}.

Definition one_backup : BackupManager.fs :=
  BackupManager.set_backup_dir
    <["orchestrator_backup_20231114_221320.tar.gz" := earlier_archive]>
    (empty_backup_dir no_faults).

Definition broken_link : BackupManager.fs :=
  BackupManager.set_backup_dir
    <["orchestrator_backup_latest.tar.gz" :=
        {| BackupManager.n_content := BackupManager.Dangling;
           BackupManager.n_size := 0; BackupManager.n_mtime := 0 |}]>
    one_backup.

End Examples.

(** * Properties *)

Module ContainerManagerProps.
Import Py Py.Notations Docker ContainerManager.
Local Open Scope py_scope.
Local Open Scope list_scope.

Ltac crush := repeat (simplify_eq/=; try case_match); simpl; eauto 10.

Ltac run :=
  unfold try_except, bind, ret, raise, get, modify, on_client, of_result in *;
  simpl in *.

(** A request either goes through or is refused; either way it is
    recorded and nothing else changes. *)
Lemma request_spec c d :
  let d' := {| d_containers := d_containers d; d_used := d_used d;
               d_images := d_images d; d_faults := tail (d_faults d);
               d_calls := d_calls d ++ [c] |} in
  request c d = (Ret tt, d') ∨ request c d = (Raise DockerException, d').
Proof.
  unfold request. destruct (d_faults d) as [|[] ?]; simpl; auto.
Qed.

Lemma api_stop_spec cid t d :
  ∃ r d', api_stop cid t d = (r, d')
    ∧ (r = Ret tt ∨ r = Raise DockerException)
    ∧ d_calls d' = d_calls d ++ [CStop cid t].
Proof.
  unfold api_stop, lookup_container. run.
  destruct (request_spec (CStop cid t) d) as [-> | ->]; simpl;
    crush.
Qed.

Lemma api_remove_spec cid f d :
  ∃ r d', api_remove cid f d = (r, d')
    ∧ d_calls d' = d_calls d ++ [CRemove cid f]
    ∧ (r = Raise DockerException
       ∨ r = Ret tt ∧ d_containers d' !! cid = None).
Proof.
  unfold api_remove, lookup_container. run.
  destruct (request_spec (CRemove cid f) d) as [-> | ->]; simpl;
    crush.
  do 2 eexists. split; [reflexivity|]. split; [done|]. right. split; [done|].
  apply lookup_delete_eq.
Qed.

Lemma stop_container_spec name t m :
  ∃ r d', stop_container name t m = (Ret r, set_client d' m)
    ∧ match _containers m !! name with
      | None => d' = client m ∧ r = false
      | Some c => d_calls d' = d_calls (client m) ++ [CStop (c_id c) t]
      end.
Proof.
  unfold stop_container. run.
  destruct (_containers m !! name) as [c|] eqn:Hc.
  - destruct (api_stop_spec (c_id c) t (client m)) as (r & d' & -> & [-> | ->] & Hl);
      simpl; eauto.
  - exists false, (client m). destruct m; simpl. auto.
Qed.

Lemma stop_container_registry name t m :
  _containers (stop_container name t m).2 = _containers m.
Proof.
  destruct (stop_container_spec name t m) as (r & d' & -> & _). done.
Qed.

(** What [remove_container] does for a registered name, step by step. *)
Lemma remove_container_registered name force m c :
  _containers m !! name = Some c →
  let m_pre := if bool_decide (c_status c = "running")
               then (stop_container name 30 m).2 else m in
  remove_container name force m =
    match on_client (api_remove (c_id c) force) m_pre with
    | (Ret _, m') => (Ret true, set_registry (delete name) m')
    | (Raise _, m') => (Ret false, m')
    end.
Proof.
  intros Hc. unfold remove_container. run. rewrite Hc.
  destruct (stop_container_spec name 30 m) as (r & d' & Hs & _).
  case_bool_decide; simpl.
  - rewrite Hs; simpl.
    destruct (api_remove_spec (c_id c) force d') as (r' & d'' & -> & _ & [-> | [-> _]]);
      done.
  - destruct (api_remove_spec (c_id c) force (client m)) as (r' & d'' & -> & _ & [-> | [-> _]]);
      done.
Qed.

Lemma remove_container_unregistered name force m :
  _containers m !! name = None → remove_container name force m = (Ret false, m).
Proof. intros Hc. unfold remove_container. run. by rewrite Hc. Qed.





(** ** C10 *)

(** C10: for a registered name, when the runtime's removal call fails,
    [remove_container] returns [False] and the registry is unchanged; the
    entry is deleted only when the runtime removal succeeded, and then
    the runtime no longer has the instance. *)
Theorem remove_failure_keeps_entry name force m c :
  _containers m !! name = Some c →
  let m_pre := if bool_decide (c_status c = "running")
               then (stop_container name 30 m).2 else m in
  let attempt := on_client (api_remove (c_id c) force) m_pre in
  let out := remove_container name force m in
  (∀ e, attempt.1 = Raise e →
        out.1 = Ret false ∧ _containers out.2 = _containers m)
  ∧ (_containers out.2 !! name = None →
       attempt.1 = Ret tt ∧ out.1 = Ret true
       ∧ d_containers (client out.2) !! c_id c = None).
Proof.
  intros Hc m_pre attempt out.
  assert (Hreg : _containers m_pre = _containers m).
  { subst m_pre. case_bool_decide; [apply stop_container_registry | done]. }
  subst out. rewrite (remove_container_registered _ _ _ _ Hc).
  fold m_pre. subst attempt. unfold on_client.
  destruct (api_remove_spec (c_id c) force (client m_pre))
    as (r & d' & -> & _ & [-> | [-> Hgone]]); simpl.
  - split; [by intros e _|]. rewrite Hreg, Hc. done.
  - split; [by intros e ?|]. intros _. done.
Qed.

(** ** C2 *)

(** C2 (as amended): for a registered service whose cached status is
    [running], [remove_container] first asks the runtime to stop the
    instance, whatever [force] is, and then asks it to remove the
    instance with the given [force]; when it returns [True] the registry
    entry is deleted. *)
Theorem remove_running_stops_first name force m c :
  _containers m !! name = Some c →
  c_status c = "running" →
  let out := remove_container name force m in
  d_calls (client out.2)
    = d_calls (client m) ++ [CStop (c_id c) 30; CRemove (c_id c) force]
  ∧ (out.1 = Ret true ∨ out.1 = Ret false)
  ∧ (out.1 = Ret true → _containers out.2 = delete name (_containers m)).
Proof.
  intros Hc Hrun out. subst out.
  rewrite (remove_container_registered _ _ _ _ Hc).
  rewrite bool_decide_eq_true_2 by done.
  destruct (stop_container_spec name 30 m) as (r & d' & -> & Hcalls).
  rewrite Hc in Hcalls. unfold on_client; simpl.
  destruct (api_remove_spec (c_id c) force d')
    as (r' & d'' & -> & Hcalls' & [-> | [-> _]]); simpl;
    rewrite Hcalls', Hcalls, <- app_assoc; simpl; split_and!; auto; done.
Qed.

(** ** C9 *)

(** C9 (as amended): for a name that is not in the registry,
    [get_container_status] returns ["unknown"], [get_container_logs]
    returns the text ["Container not found"], [get_container_stats]
    returns [None]; none of them raises, and none touches the state. *)
Theorem unknown_name_reads name tail m :
  _containers m !! name = None →
  get_container_status name m = (Ret UNKNOWN, m)
  ∧ get_container_logs name tail m = (Ret (Some "Container not found"), m)
  ∧ get_container_stats name m = (Ret None, m).
Proof.
  intros Hc.
  unfold get_container_status, get_container_logs, get_container_stats.
  run. rewrite Hc. done.
Qed.

(** ** C3 *)

Lemma api_create_spec name img lbls d :
  ∃ r d', api_create name img lbls d = (r, d')
    ∧ d_calls d' = d_calls d ++ [CCreate name img]
    ∧ (r = Raise DockerException ∨ ∃ cid, r = Ret cid)
    ∧ (name_in_use name d = true → r = Raise DockerException).
Proof.
  unfold api_create, name_in_use. run.
  destruct (request_spec (CCreate name img) d) as [-> | ->]; simpl; crush.
  do 2 eexists. split_and!; [done | done | eauto | done].
Qed.

Lemma api_connect_spec net cid d :
  ∃ r d', api_connect net cid d = (r, d')
    ∧ d_calls d' = d_calls d ++ [CConnect net cid]
    ∧ (r = Raise DockerException ∨ r = Ret tt).
Proof.
  unfold api_connect, lookup_container. run.
  destruct (request_spec (CConnect net cid) d) as [-> | ->]; simpl; crush.
Qed.

Lemma prepare_volumes_result vs acc :
  (∃ r, prepare_volumes vs acc = Ret r) ∨ prepare_volumes vs acc = Raise ValueError.
Proof.
  revert acc. induction vs as [|v vs IH]; intros acc; simpl; [eauto|].
  unfold unpack2. repeat case_match; simplify_eq; eauto.
Qed.

Lemma prepare_ports_result ps acc :
  (∃ r, prepare_ports ps acc = Ret r) ∨ prepare_ports ps acc = Raise ValueError.
Proof.
  revert acc. induction ps as [|p ps IH]; intros acc; simpl; [eauto|].
  unfold unpack2. repeat case_match; simplify_eq; eauto.
Qed.

Lemma cpu_quota_result q :
  (∃ r, Limits.cpu_quota q = Ret r)
  ∨ Limits.cpu_quota q = Raise ValueError
  ∨ Limits.cpu_quota q = Raise OverflowError.
Proof.
  unfold Limits.cpu_quota, Limits.int_of_float.
  destruct q as [x|]; [|eauto].
  destruct (PrimFloat.is_zero x); [eauto|].
  destruct (FloatOps.Prim2SF _); eauto.
Qed.

Lemma _prepare_container_config_result name cfg :
  (∃ cc, _prepare_container_config name cfg = Ret cc
         ∧ cc_name cc = ("homie_" ++ name)%string)
  ∨ _prepare_container_config name cfg = Raise ValueError
  ∨ _prepare_container_config name cfg = Raise OverflowError.
Proof.
  unfold _prepare_container_config.
  destruct (prepare_volumes_result (volumes cfg) ∅) as [[? ->] | ->]; [|by auto].
  destruct (prepare_ports_result (ports cfg) ∅) as [[? ->] | ->]; [|by auto].
  destruct (cpu_quota_result (cpu_limit cfg)) as [[? ->] | [-> | ->]]; eauto.
Qed.

(** What [create_container] does, by the answers of the runtime. *)
Lemma create_container_cases name cfg m :
  create_container name cfg m
  = match _prepare_container_config name cfg with
    | Raise e => (Raise e, m)
    | Ret cc =>
        match api_create (cc_name cc) (cc_image cc) (cc_labels cc) (client m) with
        | (Raise _, d1) => (Ret false, set_client d1 m)
        | (Ret cid, d1) =>
            let registered :=
              set_registry <[name := {| c_id := cid; c_name := cc_name cc;
                                        c_status := "created" |}]> in
            match network m with
            | None => (Ret true, registered (set_client d1 m))
            | Some net =>
                match api_connect net cid d1 with
                | (Ret _, d2) => (Ret true, registered (set_client d2 m))
                | (Raise _, d2) => (Ret false, set_client d2 m)
                end
            end
        end
    end.
Proof.
  unfold create_container. run.
  destruct (_prepare_container_config_result name cfg)
    as [(cc & -> & Hname) | [-> | ->]]; simpl; [|by destruct m..].
  destruct (api_create_spec (cc_name cc) (cc_image cc) (cc_labels cc) (client m))
    as (r & d' & -> & _ & Hr & _).
  destruct Hr as [-> | [cid ->]]; simpl; [done|].
  destruct (network m) as [net|]; simpl; [|done].
  destruct (api_connect_spec net cid d') as (r' & d'' & -> & _ & [-> | ->]);
    simpl; done.
Qed.



(** ** C4 *)







(** [get_container_status] answers from the runtime or not at all. *)
Lemma get_container_status_spec name m :
  match _containers m !! name with
  | None => get_container_status name m = (Ret UNKNOWN, m)
  | Some c =>
      (get_container_status name m).1 = Ret ERROR
      ∨ ∃ dc, d_containers (client m) !! c_id c = Some dc
              ∧ (get_container_status name m).1 = Ret (dc_status dc)
  end.
Proof.
  unfold get_container_status, reload, api_reload, lookup_container. run.
  destruct (_containers m !! name) as [c|]; [|done].
  destruct (request_spec (CReload (c_id c)) (client m)) as [-> | ->]; simpl;
    [|by left].
  destruct (d_containers (client m) !! c_id c) as [dc|]; simpl; eauto.
Qed.






(** *** The theorems at work, and the sentences that fail *)

Import Examples.

Lemma remove_failure_keeps_entry_witness :
  (remove_container "web" false (discovered [false; true])).1 = Ret false
  ∧ _containers (remove_container "web" false (discovered [false; true])).2
    = _containers (discovered [false; true]).
Proof.
  eapply (proj1 (remove_failure_keeps_entry "web" false
                   (discovered [false; true])
                   {| c_id := 0; c_name := "custom_web"; c_status := "running" |}
                   ltac:(by vm_compute)) DockerException).
  by vm_compute.
Defined.

(** Against C2: with [force] set, the runtime is still asked to stop the
    running instance before it is asked to remove it. *)
Lemma forced_remove_still_stops :
  _containers (discovered []) !! "web"
    = Some {| c_id := 0; c_name := "custom_web"; c_status := "running" |}
  ∧ d_calls (client (discovered [])) = [CList]
  ∧ d_calls (client (remove_container "web" true (discovered [])).2)
    = [CList; CStop 0 30; CRemove 0 true].
Proof. by vm_compute. Qed.

Lemma remove_running_stops_first_witness :
  d_calls (client (remove_container "web" true (discovered [])).2)
  = d_calls (client (discovered [])) ++ [CStop 0 30; CRemove 0 true].
Proof.
  eapply (proj1 (remove_running_stops_first "web" true (discovered [])
                   {| c_id := 0; c_name := "custom_web"; c_status := "running" |}
                   ltac:(by vm_compute) ltac:(by vm_compute))).
Defined.





(** The instance that a refused network attachment leaves behind: the
    update returns [True], the registry has no entry for [web], and the
    runtime holds a container [homie_web] that nothing refers to. *)
Lemma refused_attachment_leaves_instance :
  let out := update_container "web" cfg_v1
               (discovered [false; false; false; false; false; true]) in
  out.1 = Ret true
  ∧ _containers out.2 !! "web" = None
  ∧ (get_container_status "web" out.2).1 = Ret UNKNOWN
  ∧ dc_name <$> d_containers (client out.2) !! 1%nat = Some "homie_web"
  ∧ dc_status <$> d_containers (client out.2) !! 1%nat = Some "created".
Proof. by vm_compute. Qed.

(** Against C9: for an unknown name the logs are a text, not [None]. *)
Lemma unknown_name_logs_are_text :
  _containers (fresh_manager []) !! "ghost" = None
  ∧ (get_container_logs "ghost" 100 (fresh_manager [])).1
    = Ret (Some "Container not found")
  ∧ (get_container_logs "ghost" 100 (fresh_manager [])).1 ≠ Ret None.
Proof. split_and!; by vm_compute. Qed.

Lemma unknown_name_reads_witness :
  get_container_stats "ghost" (fresh_manager []) = (Ret None, fresh_manager []).
Proof.
  apply (proj2 (proj2 (unknown_name_reads "ghost" 100 (fresh_manager [])
                         ltac:(by vm_compute)))).
Defined.

End ContainerManagerProps.

Module HealthMonitorProps.
Import Py Py.Notations Docker ContainerManager HealthMonitor.
Import ContainerManagerProps.
Local Open Scope py_scope.
Local Open Scope list_scope.

(** *** The aggregate *)

Lemma threshold_exact (h t : nat) :
  t ≠ 0%nat → fraction_ok h t = true ↔ (4 * t ≤ 5 * h)%nat.
Proof.
  intros Ht. unfold fraction_ok. rewrite Qle_bool_iff.
  assert (Hpos : 0 < Z.of_nat t) by lia.
  destruct (Z.of_nat t) as [|p|p] eqn:E; [lia| |lia].
  unfold Qle, Qdiv, Qmult, Qinv, inject_Z. simpl.
  rewrite Z.mul_1_r. lia.
Qed.

Lemma binary64_table : arithmetic_agrees_up_to 300 = true.
Proof. by vm_compute. Qed.

Lemma agreement_from_table (n h t : nat) :
  arithmetic_agrees_up_to n = true →
  (1 ≤ t ≤ n)%nat → (h ≤ t)%nat →
  Binary64.fraction_ok_binary64 h t = fraction_ok h t.
Proof.
  unfold arithmetic_agrees_up_to. intros Htab Ht Hh.
  rewrite forallb_forall in Htab.
  specialize (Htab t). rewrite in_seq in Htab.
  specialize (Htab ltac:(lia)). rewrite forallb_forall in Htab.
  specialize (Htab h). rewrite in_seq in Htab.
  specialize (Htab ltac:(lia)).
  symmetry. by apply Bool.eqb_prop.
Qed.

(** For fleets of up to 300 services the exact test and the binary64
    test that Python runs are the same test. *)
Lemma binary64_agrees (h t : nat) :
  (1 ≤ t ≤ 300)%nat → (h ≤ t)%nat →
  Binary64.fraction_ok_binary64 h t = fraction_ok h t.
Proof. exact (agreement_from_table 300 h t binary64_table). Qed.

Lemma total_count_length h : length (get_all_health_checks h) = total_count h.
Proof.
  unfold get_all_health_checks, total_count.
  by rewrite length_fmap, length_map_to_list.
Qed.

(** C5: [get_overall_health] reports [healthy] exactly when there is no
    known service or the fraction of services with a healthy verdict is
    at least 0.8 (in exact arithmetic, 4 * total ≤ 5 * healthy); with
    10 services, 8 healthy ones make the aggregate healthy and 7 do
    not. *)
Theorem overall_health_threshold h :
  (healthy (get_overall_health h) = true
   ↔ total_count h = 0%nat ∨ (4 * total_count h ≤ 5 * healthy_count h)%nat)
  ∧ (total_count h = 10%nat → healthy_count h = 8%nat →
       healthy (get_overall_health h) = true)
  ∧ (total_count h = 10%nat → healthy_count h = 7%nat →
       healthy (get_overall_health h) = false).
Proof.
  assert (Hiff : healthy (get_overall_health h) = true
   ↔ total_count h = 0%nat ∨ (4 * total_count h ≤ 5 * healthy_count h)%nat).
  { unfold get_overall_health; simpl. fold (healthy_count h).
    rewrite total_count_length. rewrite orb_true_iff, bool_decide_eq_true.
    destruct (decide (total_count h = 0%nat)) as [Hz|Hnz]; [tauto|].
    rewrite (threshold_exact _ _ Hnz). tauto. }
  split; [exact Hiff|]. split.
  - intros Ht Hh. apply Hiff. right. lia.
  - intros Ht Hh. apply not_true_is_false. rewrite Hiff. lia.
Qed.

(** *** The sampling pass *)

Lemma list_entry_spec name c m :
  ∃ info m', list_entry name c m = (Ret info, m') ∧ entry_wf info.
Proof.
  unfold list_entry, reload, api_reload, api_image, lookup_container, entry_wf.
  run.
  destruct (request_spec (CReload (c_id c)) (client m)) as [-> | ->]; simpl;
    [|eauto].
  destruct (d_containers (client m) !! c_id c) as [dc|] eqn:Hdc; simpl; [|eauto].
  match goal with |- context [request ?c ?d] =>
    destruct (request_spec c d) as [-> | ->]; simpl; [|eauto] end.
  rewrite Hdc; simpl.
  match goal with |- context [request ?c ?d] =>
    destruct (request_spec c d) as [-> | ->]; simpl; [|eauto] end.
  rewrite Hdc; simpl. eauto.
Qed.

Lemma list_loop_spec items acc m :
  map_Forall (λ _ info, entry_wf info) acc →
  ∃ infos m', list_loop items acc m = (Ret infos, m')
              ∧ map_Forall (λ _ info, entry_wf info) infos.
Proof.
  revert acc m. induction items as [|[name c] items IH]; intros acc m Hacc; simpl.
  - run. eauto.
  - unfold bind.
    destruct (list_entry_spec name c m) as (info & m' & -> & Hwf).
    apply IH. by apply map_Forall_insert_2.
Qed.

Lemma list_containers_spec m :
  ∃ infos m', list_containers m = (Ret infos, m')
              ∧ map_Forall (λ _ info, entry_wf info) infos.
Proof.
  unfold list_containers. run. apply list_loop_spec, map_Forall_empty.
Qed.

Lemma check_each_spec items h :
  check_each items h = (Ret tt, set_checks (store_all (now h) items) h).
Proof.
  revert h. induction items as [|[name info] items IH]; intros h; simpl.
  - run. by destruct h.
  - unfold bind, _check_container_health. run.
    destruct (classify info) as [st msg] eqn:Hcl. simpl.
    rewrite IH. simpl. unfold set_checks, store_all, verdict_at; simpl.
    by rewrite Hcl.
Qed.

Lemma store_all_other t items hc k :
  k ∉ items.*1 → store_all t items hc !! k = hc !! k.
Proof.
  revert hc. induction items as [|[k' i] items IH]; intros hc Hk; simpl; [done|].
  rewrite fmap_cons, not_elem_of_cons in Hk. destruct Hk as [Hne Hk].
  unfold store_all in *. simpl. rewrite IH by done.
  by rewrite lookup_insert_ne.
Qed.

Lemma store_all_lookup t items hc k info :
  NoDup items.*1 → (k, info) ∈ items →
  store_all t items hc !! k = Some (verdict_at t k info).
Proof.
  revert hc. induction items as [|[k' i] items IH]; intros hc Hnd Hin.
  - by apply elem_of_nil in Hin.
  - rewrite fmap_cons in Hnd. apply NoDup_cons in Hnd as [Hfresh Hnd].
    apply elem_of_cons in Hin as [Heq | Hin].
    + simplify_eq. change (store_all t ((k', i) :: items) hc)
        with (store_all t items (<[k' := verdict_at t k' i]> hc)).
      rewrite store_all_other by done. apply lookup_insert_eq.
    + change (store_all t ((k', i) :: items) hc)
        with (store_all t items (<[k' := verdict_at t k' i]> hc)).
      by apply IH.
Qed.

Lemma classify_cases info :
  let st := (classify info).1 in
  (ci_status info = Some "running" → st = "healthy")
  ∧ (ci_status info = Some "restarting" → st = "warning")
  ∧ (ci_status info = Some "stopped" ∨ ci_status info = Some "exited" →
       st = "unhealthy")
  ∧ (entry_wf info → is_Some (ci_error info) → st = "error")
  ∧ (ci_error info = None →
     ci_status info ∉ [Some "running"; Some "restarting"; Some "stopped";
                       Some "exited"] →
     st = "unknown").
Proof.
  unfold classify, entry_wf. simpl. split_and!.
  - intros ->. done.
  - intros ->. done.
  - intros [-> | ->]; done.
  - intros [-> | ->] [e He]; [done|]. rewrite He. done.
  - intros -> Hst.
    destruct (ci_status info) as [s|]; simpl; [|done].
    assert (Hmem : ∀ x : string, x ∈ ["running"; "restarting"; "stopped"; "exited"] →
                     s ≠ x).
    { intros x Hx ->. apply Hst. rewrite !elem_of_cons, elem_of_nil in Hx.
      rewrite !elem_of_cons.
      destruct Hx as [-> | [-> | [-> | [-> | []]]]]; auto 10. }
    rewrite !bool_decide_eq_false_2; [done|..].
    + rewrite !elem_of_cons, elem_of_nil.
      intros [-> | [-> | []]]; eapply Hmem; try reflexivity;
        rewrite !elem_of_cons; auto.
    + apply Hmem. rewrite !elem_of_cons; auto.
    + apply Hmem. rewrite !elem_of_cons; auto.
Qed.

(** C8: every entry that [list_containers] returns gets, in one pass of
    the monitor, the verdict that the table gives for it: [running] is
    healthy, [restarting] is warning, [stopped] and [exited] are
    unhealthy, an entry with an error field is error, anything else is
    unknown.  The verdict stored under the service's name after the pass
    is this one, whatever was stored before. *)
Theorem health_classification h :
  ∃ infos cm',
    list_containers (container_manager h) = (Ret infos, cm')
    ∧ ∀ name info, infos !! name = Some info →
        ∃ v, health_checks (_perform_health_checks h).2 !! name = Some v
             ∧ service v = name
             ∧ last_check v = now h
             ∧ (ci_status info = Some "running" → status v = "healthy")
             ∧ (ci_status info = Some "restarting" → status v = "warning")
             ∧ (ci_status info = Some "stopped" ∨ ci_status info = Some "exited" →
                  status v = "unhealthy")
             ∧ (is_Some (ci_error info) → status v = "error")
             ∧ (ci_error info = None →
                ci_status info ∉ [Some "running"; Some "restarting";
                                  Some "stopped"; Some "exited"] →
                status v = "unknown").
Proof.
  destruct (list_containers_spec (container_manager h))
    as (infos & cm' & Hlist & Hwf).
  exists infos, cm'. split; [done|]. intros name info Hinfo.
  exists (verdict_at (now h) name info).
  pose proof (classify_cases info) as (H1 & H2 & H3 & H4 & H5).
  split_and!; try done.
  - unfold _perform_health_checks, on_manager. run. rewrite Hlist. simpl.
    rewrite check_each_spec. simpl.
    apply store_all_lookup; [apply NoDup_fst_map_to_list|].
    by apply elem_of_map_to_list.
  - apply H4. by apply (Hwf name).
Qed.


(** *** The theorems at work *)

Import Examples.

Lemma overall_health_threshold_witness :
  healthy (get_overall_health (ten_services 8)) = true
  ∧ healthy (get_overall_health (ten_services 7)) = false.
Proof.
  split.
  - apply (proj1 (proj2 (overall_health_threshold (ten_services 8))));
      by vm_compute.
  - apply (proj2 (proj2 (overall_health_threshold (ten_services 7))));
      by vm_compute.
Defined.

(** One pass over the discovered manager replaces the stale verdict of
    [web]. *)
Lemma health_classification_witness :
  status <$> health_checks sampling !! "web" = Some "unhealthy"
  ∧ ∃ v, health_checks (_perform_health_checks sampling).2 !! "web" = Some v
         ∧ status v = "healthy".
Proof.
  split; [by vm_compute|].
  destruct (health_classification sampling) as (infos & cm' & Hlist & Hall).
  assert (∃ info, infos !! "web" = Some info
                  ∧ ci_status info = Some "running") as (info & Hinfo & Hrun).
  { revert Hlist. vm_compute. intros [= <- _]. eexists. split; reflexivity. }
  destruct (Hall "web" info Hinfo) as (v & Hv & _ & _ & Hhealthy & _).
  exists v. split; [exact Hv | exact (Hhealthy Hrun)].
Defined.

End HealthMonitorProps.

Module SchedulerProps.
Import Py Py.Notations Scheduler.
Local Open Scope py_scope.
Local Open Scope list_scope.

Ltac run :=
  unfold try_except, bind, ret, raise, get, modify, of_result in *;
  simpl in *.

Lemma digit_not_space a : is_digit a = true → is_space a = false.
Proof.
  unfold is_digit, is_space. intros H.
  apply andb_true_iff in H as [H1 H2].
  apply Nat.leb_le in H1. apply Nat.leb_le in H2.
  repeat (apply orb_false_iff; split);
    [apply andb_false_iff; right; apply Nat.leb_gt; lia
    | apply Nat.eqb_neq; lia..].
Qed.

Lemma lstrip_digit a l : is_digit a = true → lstrip (a :: l) = a :: l.
Proof. intros H. simpl. by rewrite (digit_not_space _ H). Qed.

Lemma strip_digits ds :
  ds ≠ [] → Forall (λ a, is_digit a = true) ds → strip ds = ds.
Proof.
  intros Hne Hd. unfold strip.
  destruct ds as [|a ds]; [done|].
  rewrite lstrip_digit by (by apply Forall_cons in Hd as [? _]).
  assert (Hr : Forall (λ a, is_digit a = true) (rev (a :: ds))).
  { by apply Forall_rev. }
  destruct (rev (a :: ds)) as [|b l] eqn:E.
  - apply (f_equal (@length _)) in E. rewrite length_rev in E. done.
  - rewrite lstrip_digit by (by apply Forall_cons in Hr as [? _]).
    rewrite <- E. apply rev_involutive.
Qed.

Lemma parse_digits_digits ds acc b :
  Forall (λ a, is_digit a = true) ds → (ds ≠ [] ∨ b = true) →
  parse_digits ds acc b
  = Some (fold_left (λ acc a, 10 * acc + digit_value a) ds acc).
Proof.
  revert acc b. induction ds as [|a ds IH]; intros acc b Hd Hne; simpl.
  - destruct Hne as [? | ->]; done.
  - apply Forall_cons in Hd as [Ha Hd]. rewrite Ha. apply IH; auto.
Qed.

Lemma count_digits_digits ds :
  Forall (λ a, is_digit a = true) ds → count_digits ds = length ds.
Proof.
  unfold count_digits. induction 1 as [|a ds Ha _ IH]; [done|].
  rewrite filter_cons_True by done. simpl. by rewrite IH.
Qed.

(** [int] on a run of digits: its value, or [ValueError] when the run is
    longer than the limit. *)
Lemma py_int_digit_run ds :
  ds ≠ [] → Forall (λ a, is_digit a = true) ds →
  py_int ds = if bool_decide (int_max_str_digits < length ds)%nat
              then Raise ValueError else Ret (decimal ds).
Proof.
  intros Hne Hd. unfold py_int.
  rewrite strip_digits, (count_digits_digits _ Hd) by done.
  destruct ds as [|a ds]; [done|].
  assert (Ha : is_digit a = true) by (by apply Forall_cons in Hd as [? _]).
  assert (parse_digits (a :: ds) 0 false = Some (decimal (a :: ds))) as Hp.
  { apply parse_digits_digits; auto. }
  destruct a as [[] [] [] [] [] [] [] []]; try discriminate Ha; by rewrite Hp.
Qed.

Lemma py_int_digits ds :
  ds ≠ [] → Forall (λ a, is_digit a = true) ds →
  (length ds ≤ int_max_str_digits)%nat →
  py_int ds = Ret (decimal ds).
Proof.
  intros Hne Hd Hlen. rewrite py_int_digit_run by done.
  rewrite bool_decide_eq_false_2; [done | lia].
Qed.

Lemma py_int_raises l e : py_int l = Raise e → e = ValueError.
Proof.
  unfold py_int. repeat case_match; intros; by simplify_eq.
Qed.

Lemma _parse_interval_raises schedule e :
  _parse_interval schedule = Raise e → e = ValueError.
Proof.
  unfold _parse_interval.
  repeat case_match; intros; simplify_eq; try done; by eapply py_int_raises.
Qed.

Lemma endswith_snoc ds u c : endswith (ds ++ [u]) c = Ascii.eqb u c.
Proof. unfold endswith. by rewrite last_snoc. Qed.

Lemma drop_last_snoc ds (u : ascii) : drop_last (ds ++ [u]) = ds.
Proof. unfold drop_last. apply removelast_last. Qed.

Section WithEngine.
Context {E : Engine} {W : Type}.

Lemma _parse_interval_form schedule n :
  interval_form schedule n → _parse_interval schedule = Ret n.
Proof.
  intros (ds & u & k & Hs & Hne & Hd & Hlen & Hu & ->).
  unfold _parse_interval. rewrite Hs, !endswith_snoc, drop_last_snoc.
  rewrite (py_int_digits _ Hne Hd Hlen).
  unfold unit_seconds in Hu.
  repeat case_match; simplify_eq; f_equal; lia.
Qed.

Lemma _is_interval_schedule_form schedule n :
  interval_form schedule n → _is_interval_schedule schedule = true.
Proof.
  intros (ds & u & k & Hs & Hne & Hd & Hlen & Hu & ->).
  unfold _is_interval_schedule. rewrite Hs, !endswith_snoc.
  unfold unit_seconds in Hu.
  repeat case_match; simplify_eq; done.
Qed.

Lemma _parse_interval_long_run ds u k :
  Forall (λ a, is_digit a = true) ds → unit_seconds u = Some k →
  (int_max_str_digits < length ds)%nat →
  _parse_interval (string_of_list_ascii (ds ++ [u])) = Raise ValueError.
Proof.
  intros Hd Hu Hlen.
  assert (Hne : ds ≠ []) by (intros ->; simpl in Hlen; lia).
  unfold _parse_interval.
  rewrite list_ascii_of_string_of_list_ascii, !endswith_snoc, drop_last_snoc.
  rewrite (py_int_digit_run _ Hne Hd), bool_decide_eq_true_2 by done.
  unfold unit_seconds in Hu. repeat case_match; simplify_eq; done.
Qed.

Lemma add_task_disabled id name f schedule (s : scheduler W) :
  add_task id name f schedule false s
  = (Ret true,
     set_tasks <[id := fresh (dom (task_objects s))]>
       (set_task_objects
          <[fresh (dom (task_objects s))
            := {| task_id := id; name := name; func := f;
                  schedule := schedule; enabled := false;
                  last_run := None; next_run := None; job := None |}]> s)).
Proof. unfold add_task, new_task. run. done. Qed.

(** C6 (as amended): a schedule string given to [add_task] with
    [enabled=True] that croniter rejects and that is [<integer><unit>],
    the integer a run of at most 4300 digits and the unit among s, m, h,
    d, is parsed to the integer times 1, 60, 3600 or 86400 seconds, and
    the job registered with the engine carries the interval trigger of
    that many seconds; a string that croniter rejects and that does not
    end in a unit letter, or whose text before the unit is not accepted
    by [int] (a longer run of digits is not), makes [add_task] return
    [False] and leaves the task table and the engine's jobs as they
    were.  With [enabled=False] the schedule string is not examined: the
    task is registered, with no job, whatever the string is. *)
Theorem add_task_schedule_forms (s : scheduler W) id name f schedule :
  (croniter schedule = false →
   let out := add_task id name f schedule true s in
   (∀ n, interval_form schedule n →
      _parse_interval schedule = Ret n
      ∧ (interval_trigger n = true → jobstore s !! id = None →
         out.1 = Ret true
         ∧ ∃ a j t jb,
             tasks out.2 !! id = Some a
             ∧ task_objects out.2 !! a = Some t
             ∧ Scheduler.schedule t = schedule ∧ job t = Some j
             ∧ jobstore out.2 !! id = Some j
             ∧ job_objects out.2 !! j = Some jb
             ∧ job_trigger jb = IntervalTrigger n ∧ job_args jb = a))
   ∧ (_is_interval_schedule schedule = false
      ∨ (∃ e, _parse_interval schedule = Raise e) →
      out.1 = Ret false ∧ tasks out.2 = tasks s ∧ jobstore out.2 = jobstore s))
  ∧ (let out := add_task id name f schedule false s in
     out.1 = Ret true
     ∧ jobstore out.2 = jobstore s ∧ job_objects out.2 = job_objects s
     ∧ ∃ a, task_objects s !! a = None
            ∧ tasks out.2 = <[id := a]> (tasks s)
            ∧ task_objects out.2
              = <[a := {| task_id := id; name := name; func := f;
                          schedule := schedule; enabled := false;
                          last_run := None; next_run := None;
                          job := None |}]> (task_objects s))
  ∧ (∀ ds u k,
       Forall (λ a, is_digit a = true) ds → unit_seconds u = Some k →
       (int_max_str_digits < length ds)%nat →
       _parse_interval (string_of_list_ascii (ds ++ [u])) = Raise ValueError)
  ∧ (_parse_interval "30s" = Ret 30 ∧ _parse_interval "5m" = Ret 300
     ∧ _parse_interval "2h" = Ret 7200 ∧ _parse_interval "1d" = Ret 86400
     ∧ _is_interval_schedule "5x" = false).
Proof.
  split; [|split; [|split]].
  - intros Hcron out. split.
    + intros n Hform. pose proof (_parse_interval_form _ _ Hform) as Hp.
      split; [done|]. intros Hok Hfree.
      subst out. unfold add_task, new_task, make_trigger, add_job, _is_cron_schedule.
      run. rewrite Hcron, (_is_interval_schedule_form _ _ Hform), Hp. simpl.
      rewrite Hok. simpl. rewrite Hfree. simpl.
      split; [done|].
      set (a := fresh (dom (task_objects s))).
      set (j := fresh (dom (job_objects s))).
      eexists a, j, _, _. split_and!.
      * apply lookup_insert_eq.
      * rewrite !lookup_alter_eq, !lookup_insert_eq. simpl. reflexivity.
      * done.
      * done.
      * apply lookup_insert_eq.
      * apply lookup_insert_eq.
      * done.
      * done.
    + intros Hbad. subst out.
      unfold add_task, new_task, make_trigger, _is_cron_schedule.
      run. rewrite Hcron.
      destruct Hbad as [-> | [e He]]; simpl; [done|].
      rewrite He, (_parse_interval_raises _ _ He).
      by destruct (_is_interval_schedule schedule).
  - cbv zeta. rewrite add_task_disabled. simpl. split_and!; try done.
    exists (fresh (dom (task_objects s))). split_and!; try done.
    apply not_elem_of_dom, is_fresh.
  - apply _parse_interval_long_run.
  - by vm_compute.
Qed.

(** C7 (as amended): [_task_wrapper] records [last_run = now] before it
    invokes the bound action, so the record is made whether the action
    returns or raises; [next_run] is refreshed from the job's next fire
    time only when the action returns and the task has a job, and keeps
    its value when the action raises.  The wrapper returns when the
    action returns or raises an [Exception]; what the action raises
    outside [Exception] ([CancelledError], [SystemExit],
    [KeyboardInterrupt]) passes through it.  In no case do the task
    table or the engine's jobs change. *)
Theorem task_wrapper_bookkeeping (s : scheduler W) task t :
  task_objects s !! task = Some t →
  let out := _task_wrapper task s in
  let fired := func t (world s) in
  out.1 = match fired.1 with
          | Ret _ | Raise (Exception _) => Ret tt
          | Raise e => Raise e
          end
  ∧ world out.2 = fired.2
  ∧ (∃ t', task_objects out.2 !! task = Some t'
           ∧ last_run t' = Some (clock s)
           ∧ next_run t'
             = match fired.1, job t with
               | Ret _, Some j => jb ← job_objects s !! j; next_run_time jb
               | _, _ => next_run t
               end)
  ∧ tasks out.2 = tasks s
  ∧ jobstore out.2 = jobstore s
  ∧ job_objects out.2 = job_objects s.
Proof.
  intros Ht out fired. subst out fired.
  unfold _task_wrapper, call_func. run. rewrite Ht. simpl.
  destruct (func t (world s)) as [[[]|e] w]; simpl.
  - rewrite lookup_alter_eq, Ht. simpl.
    destruct (job t) as [j|] eqn:Hj; simpl.
    + split_and!; try done. eexists.
      split; [by rewrite !lookup_alter_eq, Ht | done].
    + split_and!; try done. eexists.
      split; [by rewrite !lookup_alter_eq, Ht | done].
  - destruct e as [e| | |]; simpl; (split_and!; try done; eexists;
      split; [by rewrite !lookup_alter_eq, Ht | done]).
Qed.

End WithEngine.

(** *** The theorems at work, and the sentences that fail *)

Import Examples.

(** Against C6: with [enabled=False] the schedule string is not looked
    at, and a task with the schedule ["5x"] is registered. *)
Lemma disabled_task_skips_the_check :
  croniter "5x" = false
  ∧ _is_interval_schedule "5x" = false
  ∧ (add_task "t1" "T" succeeding "5x" false idle).1 = Ret true
  ∧ ti_schedule <$> get_task "t1" (add_task "t1" "T" succeeding "5x" false idle).2
    = Some "5x".
Proof. by vm_compute. Qed.

Lemma five_minutes : interval_form "5m" 300.
Proof.
  exists ["5"%char], "m"%char, 60. split_and!; try done.
  - by repeat constructor.
  - unfold int_max_str_digits. simpl. lia.
Qed.

Lemma add_task_schedule_forms_witness :
  _parse_interval "5m" = Ret 300
  ∧ (add_task "t1" "T" succeeding "5m" true idle).1 = Ret true
  ∧ (add_task "t2" "T" succeeding "5x" true idle).1 = Ret false
  ∧ tasks (add_task "t2" "T" succeeding "5x" true idle).2 = tasks idle.
Proof.
  destruct (add_task_schedule_forms idle "t1" "T" succeeding "5m")
    as (Hcron & _).
  destruct (Hcron ltac:(by vm_compute)) as (Hform & _).
  destruct (Hform 300 five_minutes) as (Hparse & Hreg).
  destruct Hreg as (Hret & _); [by vm_compute..|].
  destruct (add_task_schedule_forms idle "t2" "T" succeeding "5x")
    as (Hcron' & _).
  destruct (Hcron' ltac:(by vm_compute)) as (_ & Hbad).
  destruct Hbad as (Hfalse & Htasks & _); [left; by vm_compute|].
  done.
Defined.

(** Against C7: the action raises, and [next_run] is not refreshed: the
    engine's next fire time is 1600, the task still shows 1300. *)
Lemma failed_action_skips_next_run :
  tasks due !! "t1" = Some 0%nat
  ∧ job_objects due !! 0%nat ≫= next_run_time = Some 1600
  ∧ ti_next_run <$> get_task "t1" due = Some (Some 1300)
  ∧ (_task_wrapper 0 due).1 = Ret tt
  ∧ ti_last_run <$> get_task "t1" (_task_wrapper 0 due).2 = Some (Some 1300)
  ∧ ti_next_run <$> get_task "t1" (_task_wrapper 0 due).2 = Some (Some 1300).
Proof. by vm_compute. Qed.

(** A firing that is cancelled while the action waits: the wrapper does
    not return, [last_run] is recorded and [next_run] is not
    refreshed. *)
Lemma cancelled_action_passes_through :
  (_task_wrapper 0 due_cancelled).1 = Raise CancelledError
  ∧ ti_last_run <$> get_task "t1" (_task_wrapper 0 due_cancelled).2
    = Some (Some 1300)
  ∧ ti_next_run <$> get_task "t1" (_task_wrapper 0 due_cancelled).2
    = Some (Some 1300)
  ∧ tasks (_task_wrapper 0 due_cancelled).2 = tasks due_cancelled.
Proof. by vm_compute. Qed.

Lemma task_wrapper_bookkeeping_witness :
  (_task_wrapper 0 due).1 = Ret tt
  ∧ tasks (_task_wrapper 0 due).2 = tasks due
  ∧ jobstore (_task_wrapper 0 due).2 = jobstore due.
Proof.
  pose proof (task_wrapper_bookkeeping due 0%nat
                {| task_id := "t1"; name := "T"; func := failing;
                   schedule := "5m"; enabled := true; last_run := None;
                   next_run := Some 1300; job := Some 0%nat |}
                ltac:(by vm_compute)) as (Hret & _ & _ & Htasks & Hjobs & _).
  done.
Defined.

End SchedulerProps.

Module BackupManagerProps.
Import Py Py.Notations BackupManager.
Local Open Scope py_scope.
Local Open Scope list_scope.

Ltac run :=
  unfold try_except, bind, ret, raise, get, modify in *;
  simpl in *.






Section Footprint.
Context (temp final : string).
Hypothesis Hne : temp ≠ final.



























End Footprint.


(** The loop of [list_backups]: it ends normally exactly when no name
    it meets is a link to nothing. *)
Lemma collect_result found :
  if bool_decide (Forall (λ kn, can_examine kn.2 = true) found)
  then collect found = Ret ((λ kn, backup_info_of kn.1 kn.2) <$> found)
  else ∃ e : exception, collect found = Raise e.
Proof.
  induction found as [|[k n] found IH].
  - by rewrite bool_decide_eq_true_2.
  - cbn [collect]. unfold stat, fromtimestamp.
    destruct (is_dangling n) eqn:Hn.
    { rewrite bool_decide_eq_false_2; [by exists OSError|].
      intros [Hd _]%Forall_cons. unfold can_examine in Hd. simpl in Hd.
      by rewrite Hn in Hd. }
    cbn [snd]. destruct (is_datetime (n_mtime n)) eqn:Ht.
    2: { rewrite bool_decide_eq_false_2; [by exists ValueError|].
         intros [Hd _]%Forall_cons. unfold can_examine in Hd. simpl in Hd.
         by rewrite Hn, Ht in Hd. }
    case_bool_decide as Hrest.
    + rewrite bool_decide_eq_true_2, IH; [done|].
      constructor; [|done]. unfold can_examine. simpl. by rewrite Hn, Ht.
    + rewrite bool_decide_eq_false_2; [|by intros [_ ?]%Forall_cons].
      destruct IH as [e ->]. by exists e.
Qed.

Lemma elem_of_list_backups_1 s b :
  b ∈ list_backups s →
  ∃ k n, backup_dir s !! k = Some n ∧ is_backup_name k = true
         ∧ can_examine n = true ∧ b = backup_info_of k n.
Proof.
  unfold list_backups.
  pose proof (collect_result (filter (λ kn, is_backup_name kn.1 = true)
                                (map_to_list (backup_dir s)))) as Hc.
  case_bool_decide as Hall; [|destruct Hc as [e ->]; by intros ?%elem_of_nil].
  rewrite Hc, merge_sort_Permutation.
  intros ([k n] & -> & Hin)%list_elem_of_fmap.
  rewrite Forall_forall in Hall. pose proof (Hall _ Hin) as Hn.
  apply list_elem_of_filter in Hin as [Hname Hin].
  apply elem_of_map_to_list in Hin. exists k, n. by split_and!.
Qed.

Lemma list_backups_names s b :
  b ∈ list_backups s → is_Some (backup_dir s !! filename b).
Proof.
  intros (k & n & Hk & _ & _ & ->)%elem_of_list_backups_1. simpl. eauto.
Qed.


(** *** The theorem at work, and the sentence that fails *)

Import Examples.



End BackupManagerProps.

(** * Further properties *)

(** ** Container manager *)

Module ContainerManagerMore.
Import Py Py.Notations Docker ContainerManager ContainerManagerProps Examples.
Local Open Scope py_scope.
Local Open Scope list_scope.

(** *** The launch specification *)

Lemma length_split_on sep s : length (split_on sep s) = S (count_char sep s).
Proof.
  induction s as [|a s IH]; simpl; [done|].
  destruct (Ascii.eqb a sep); simpl; [by rewrite IH|].
  destruct (split_on sep s) as [|p ps]; simpl in *; [done|]. done.
Qed.

Lemma unpack2_ok s :
  (∃ ab, unpack2 s = Ret ab) ↔ count_char ":" s = 1%nat.
Proof.
  pose proof (length_split_on ":" s) as Hlen. unfold unpack2.
  destruct (split_on ":" s) as [|a [|b [|c l]]]; simpl in Hlen; split;
    try (intros [ab [=]]); try lia; eauto.
Qed.

Lemma unpack2_raises s :
  count_char ":" s ≠ 1%nat → unpack2 s = Raise ValueError.
Proof.
  intros Hc. pose proof (length_split_on ":" s) as Hlen. unfold unpack2.
  destruct (split_on ":" s) as [|a [|b [|c l]]]; simpl in Hlen; try done. lia.
Qed.

Lemma prepare_volumes_ok vs acc :
  (∃ r, prepare_volumes vs acc = Ret r)
  ↔ Forall (λ v, count_char ":" v = 1%nat) vs.
Proof.
  revert acc. induction vs as [|v vs IH]; intros acc; simpl.
  - split; [constructor | eauto].
  - rewrite Forall_cons. destruct (unpack2 v) as [[a b]|e] eqn:Hu.
    + rewrite IH. split; [|tauto]. intros H. split; [|done].
      apply unpack2_ok. eauto.
    + split; [by intros [r [=]]|]. intros [Hv _].
      apply unpack2_ok in Hv as [ab Hab]. congruence.
Qed.

Lemma prepare_ports_ok ps acc :
  (∃ r, prepare_ports ps acc = Ret r)
  ↔ Forall (λ p, (count_char ":" p ≤ 1)%nat) ps.
Proof.
  revert acc. induction ps as [|p ps IH]; intros acc; simpl.
  - split; [constructor | eauto].
  - rewrite Forall_cons, length_split_on. case_bool_decide as Hc.
    + destruct (unpack2 p) as [[a b]|e] eqn:Hu.
      * rewrite IH. split; [|tauto]. intros H. split; [|done].
        assert (count_char ":" p = 1%nat) by (apply unpack2_ok; eauto). lia.
      * split; [by intros [r [=]]|]. intros [Hv _].
        assert (count_char ":" p = 1%nat) as Hone by lia.
        apply unpack2_ok in Hone as [ab Hab]. congruence.
    + rewrite IH. split; [|tauto]. intros H. split; [lia|done].
Qed.

Lemma cpu_quota_cases limit :
  match limit with
  | None => Limits.cpu_quota limit = Ret None
  | Some x =>
      if PrimFloat.is_zero x then Limits.cpu_quota limit = Ret None
      else match FloatOps.Prim2SF (PrimFloat.mul x Limits.cfs_period) with
           | SpecFloat.S754_nan => Limits.cpu_quota limit = Raise ValueError
           | SpecFloat.S754_infinity _ =>
               Limits.cpu_quota limit = Raise OverflowError
           | _ => ∃ q, Limits.cpu_quota limit = Ret (Some q)
           end
  end.
Proof.
  unfold Limits.cpu_quota, Limits.int_of_float.
  destruct limit as [x|]; [|done].
  destruct (PrimFloat.is_zero x); [done|].
  destruct (FloatOps.Prim2SF _); eauto.
Qed.

(** X1: The launch specification can be built exactly when every volume is
    [host:container] (one colon), every port mapping has at most one
    colon, and the CPU limit, when one is given and is not zero, times
    100000 is a finite number.  A malformed volume or port makes
    [create_container] raise [ValueError]; with these well formed, a
    limit that is not a number makes it raise [ValueError] and one whose
    product is infinite [OverflowError]; in each case before any request
    reaches the runtime, and nothing changes. *)
Theorem launch_specification_forms service_name cfg m :
  let well_formed :=
    Forall (λ v, count_char ":" v = 1%nat) (volumes cfg)
    ∧ Forall (λ p, (count_char ":" p ≤ 1)%nat) (ports cfg) in
  let limit_class (x : PrimFloat.float) :=
    FloatOps.Prim2SF (PrimFloat.mul x Limits.cfs_period) in
  let limit_finite :=
    ∀ x, cpu_limit cfg = Some x → PrimFloat.is_zero x = false →
         limit_class x ≠ SpecFloat.S754_nan
         ∧ ∀ sign, limit_class x ≠ SpecFloat.S754_infinity sign in
  ((∃ cc, _prepare_container_config service_name cfg = Ret cc)
   ↔ well_formed ∧ limit_finite)
  ∧ (¬ well_formed →
     create_container service_name cfg m = (Raise ValueError, m))
  ∧ (well_formed →
     ∀ x, cpu_limit cfg = Some x → PrimFloat.is_zero x = false →
          (limit_class x = SpecFloat.S754_nan →
           create_container service_name cfg m = (Raise ValueError, m))
          ∧ (∀ sign, limit_class x = SpecFloat.S754_infinity sign →
             create_container service_name cfg m = (Raise OverflowError, m))).
Proof.
  intros well_formed limit_class limit_finite.
  assert (Hshape : (∃ vols prts, prepare_volumes (volumes cfg) ∅ = Ret vols
                                 ∧ prepare_ports (ports cfg) ∅ = Ret prts)
                   ↔ well_formed).
  { unfold well_formed.
    rewrite <- (prepare_volumes_ok _ ∅), <- (prepare_ports_ok _ ∅).
    split.
    - intros (vols & prts & ? & ?). eauto.
    - intros [[vols ?] [prts ?]]. eauto. }
  assert (Hbad : ¬ well_formed →
                 _prepare_container_config service_name cfg = Raise ValueError).
  { intros Hnot. unfold _prepare_container_config.
    destruct (prepare_volumes_result (volumes cfg) ∅) as [[vols Hv] | ->];
      [rewrite Hv|done].
    destruct (prepare_ports_result (ports cfg) ∅) as [[prts Hp] | ->];
      [|done].
    destruct Hnot. apply Hshape. eauto. }
  assert (Hgood : well_formed →
            ∃ vols prts, ∀ r,
              Limits.cpu_quota (cpu_limit cfg) = r →
              _prepare_container_config service_name cfg
              = match r with
                | Ret quota =>
                    Ret {| cc_image := image cfg;
                           cc_name := ("homie_" ++ service_name)%string;
                           cc_labels := managed_labels service_name cfg;
                           cc_volumes := vols; cc_ports := prts;
                           cc_cpu_quota := quota |}
                | Raise e => Raise e
                end).
  { intros (vols & prts & Hv & Hp)%Hshape. exists vols, prts. intros r <-.
    unfold _prepare_container_config. rewrite Hv, Hp.
    by destruct (Limits.cpu_quota (cpu_limit cfg)). }
  pose proof (cpu_quota_cases (cpu_limit cfg)) as Hq.
  split_and!.
  - split.
    + intros [cc Hcc].
      assert (Hwf : well_formed).
      { apply Hshape. unfold _prepare_container_config in Hcc.
        destruct (prepare_volumes (volumes cfg) ∅) as [vols|]; [|done].
        destruct (prepare_ports (ports cfg) ∅) as [prts|]; [|done]. eauto. }
      split; [done|]. intros x Hx Hnz.
      destruct (Hgood Hwf) as (vols & prts & Hprep).
      rewrite Hx in Hprep. rewrite Hx, Hnz in Hq. fold (limit_class x) in Hq.
      destruct (limit_class x) eqn:Hclass; try done.
      * rewrite (Hprep _ Hq) in Hcc. done.
      * rewrite (Hprep _ Hq) in Hcc. done.
    + intros [Hwf Hfin]. destruct (Hgood Hwf) as (vols & prts & Hprep).
      destruct (cpu_limit cfg) as [x|] eqn:Hx.
      * cbv beta iota in Hq. destruct (PrimFloat.is_zero x) eqn:Hnz.
        -- rewrite (Hprep _ Hq). eauto.
        -- destruct (Hfin x eq_refl Hnz) as [Hnan Hinf].
           fold (limit_class x) in Hq.
           destruct (limit_class x) eqn:Hclass; try done;
             try (by destruct (Hinf s));
             destruct Hq as [q Hq]; rewrite (Hprep _ Hq); eauto.
      * rewrite (Hprep _ Hq). eauto.
  - intros Hnot. rewrite create_container_cases. by rewrite (Hbad Hnot).
  - intros Hwf x Hx Hnz. destruct (Hgood Hwf) as (vols & prts & Hprep).
    rewrite Hx in Hprep. rewrite Hx, Hnz in Hq. fold (limit_class x) in Hq.
    split.
    + intros Hclass. rewrite Hclass in Hq.
      rewrite create_container_cases. by rewrite (Hprep _ Hq).
    + intros sign Hclass. rewrite Hclass in Hq.
      rewrite create_container_cases. by rewrite (Hprep _ Hq).
Qed.

(** A limit of one half gives a quota of 50000; a limit that is not a
    number and an infinite one are refused before anything is sent. *)
Lemma cpu_limit_examples :
  (∃ cc, _prepare_container_config "web" cfg_v1 = Ret cc
         ∧ cc_cpu_quota cc = Some 50000)
  ∧ create_container "web" cfg_nan (fresh_manager [])
    = (Raise ValueError, fresh_manager [])
  ∧ create_container "web" cfg_unbounded (fresh_manager [])
    = (Raise OverflowError, fresh_manager []).
Proof.
  split_and!.
  - eexists. split; [vm_compute; reflexivity|]. reflexivity.
  - rewrite create_container_cases. reflexivity.
  - rewrite create_container_cases. reflexivity.
Qed.

(** *** Start and stop *)

Lemma api_start_effect cid d :
  (∃ d', api_start cid d = (Raise DockerException, d')
         ∧ d_containers d' = d_containers d)
  ∨ (∃ d' dc, api_start cid d = (Ret tt, d')
              ∧ d_containers d !! cid = Some dc
              ∧ d_containers d' = <[cid := dc_with_status "running" dc]> (d_containers d)
              ∧ d_faults d !! 0%nat ≠ Some true).
Proof.
  unfold api_start, lookup_container, request. run.
  destruct (d_faults d) as [|[] fs] eqn:Hf; simpl.
  - destruct (d_containers d !! cid) as [dc|] eqn:Hdc; simpl; [right|left; eauto].
    do 2 eexists. split_and!; [done | done | | done].
    simpl. apply map_eq. intros k. destruct (decide (k = cid)) as [->|?].
    + by rewrite lookup_alter_eq, lookup_insert_eq, Hdc.
    + by rewrite lookup_alter_ne, lookup_insert_ne.
  - left. eauto.
  - destruct (d_containers d !! cid) as [dc|] eqn:Hdc; simpl; [right|left; eauto].
    do 2 eexists. split_and!; [done | done | | done].
    simpl. apply map_eq. intros k. destruct (decide (k = cid)) as [->|?].
    + by rewrite lookup_alter_eq, lookup_insert_eq, Hdc.
    + by rewrite lookup_alter_ne, lookup_insert_ne.
Qed.

Lemma api_stop_effect cid t d :
  (∃ d', api_stop cid t d = (Raise DockerException, d')
         ∧ d_containers d' = d_containers d)
  ∨ (∃ d' dc, api_stop cid t d = (Ret tt, d')
              ∧ d_containers d !! cid = Some dc
              ∧ ∃ dc', d_containers d' !! cid = Some dc'
                       ∧ dc_status dc' ∉ ["running"; "restarting"; "paused"]).
Proof.
  unfold api_stop, lookup_container, request. run.
  assert (Hexited : "exited" ∉ ["running"; "restarting"; "paused"]).
  { rewrite !elem_of_cons, elem_of_nil. intros [?|[?|[?|[]]]]; discriminate. }
  destruct (d_faults d) as [|[] fs] eqn:Hf; simpl; [|left; eauto|];
    (destruct (d_containers d !! cid) as [dc|] eqn:Hdc; simpl; [right|left; eauto]);
    case_bool_decide as Hst; simpl; do 2 eexists;
    (split; [done|]); (split; [done|]); simpl.
  - rewrite lookup_alter_eq, Hdc. simpl. eauto.
  - eauto.
  - rewrite lookup_alter_eq, Hdc. simpl. eauto.
  - eauto.
Qed.

(** X2: [start_container] and [stop_container] never raise and never change
    the registry.  For an unknown name they return [False] and do
    nothing at all.  When [start_container] returns [True] the runtime
    holds the registered instance as [running]; when [stop_container]
    returns [True] the runtime holds it in a state that is not running. *)
Theorem start_stop_outcomes service_name timeout m :
  let started := start_container service_name m in
  let stopped := stop_container service_name timeout m in
  (∃ b, started.1 = Ret b) ∧ (∃ b, stopped.1 = Ret b)
  ∧ _containers started.2 = _containers m
  ∧ _containers stopped.2 = _containers m
  ∧ (_containers m !! service_name = None →
       started = (Ret false, m) ∧ stopped = (Ret false, m))
  ∧ (started.1 = Ret true →
       ∃ c dc, _containers m !! service_name = Some c
               ∧ d_containers (client started.2) !! c_id c = Some dc
               ∧ dc_status dc = "running")
  ∧ (stopped.1 = Ret true →
       ∃ c dc, _containers m !! service_name = Some c
               ∧ d_containers (client stopped.2) !! c_id c = Some dc
               ∧ dc_status dc ∉ ["running"; "restarting"; "paused"]).
Proof.
  intros started stopped. subst started stopped.
  unfold start_container, stop_container. run.
  destruct (_containers m !! service_name) as [c|] eqn:Hc; simpl.
  - destruct (api_start_effect (c_id c) (client m))
      as [(d1 & -> & _) | (d1 & dc & -> & Hdc & Hd1 & _)];
      destruct (api_stop_effect (c_id c) timeout (client m))
        as [(d2 & -> & _) | (d2 & dc2 & -> & Hdc2 & dc' & Hd2 & Hst)]; simpl;
      split_and!; eauto; try done.
    all: try (intros _; exists c, (dc_with_status "running" dc);
              split; [done|]; rewrite Hd1, lookup_insert_eq; done).
  - split_and!; eauto; try done.
Qed.

(** *** Removing twice *)

(** X3: [remove_container] is safe against absence: after a removal that
    succeeded, a second one returns [False], sends nothing to the
    runtime and changes nothing. *)
Theorem remove_twice service_name force force' m :
  (remove_container service_name force m).1 = Ret true →
  remove_container service_name force' (remove_container service_name force m).2
  = (Ret false, (remove_container service_name force m).2).
Proof.
  intros Hfirst. apply remove_container_unregistered.
  destruct (_containers m !! service_name) as [c|] eqn:Hc.
  - revert Hfirst. rewrite (remove_container_registered _ _ _ _ Hc).
    destruct (on_client _ _) as [[[]|e] m']; simpl; [|done].
    intros _. apply lookup_delete_eq.
  - rewrite (remove_container_unregistered _ _ _ Hc) in Hfirst. done.
Qed.

(** *** Create, then read *)

Lemma _prepare_container_config_fields service_name cfg cc :
  _prepare_container_config service_name cfg = Ret cc →
  cc_name cc = ("homie_" ++ service_name)%string ∧ cc_image cc = image cfg
  ∧ cc_labels cc = managed_labels service_name cfg.
Proof.
  unfold _prepare_container_config.
  destruct (prepare_volumes _ _); [|done]. destruct (prepare_ports _ _); [|done].
  destruct (Limits.cpu_quota _); [|done].
  by intros [= <-].
Qed.

(** What a successful [create_container] leaves behind. *)
Lemma create_container_success service_name cfg m :
  (create_container service_name cfg m).1 = Ret true →
  ∃ cid dc,
    d_containers (client m) !! cid = None
    ∧ d_containers (client (create_container service_name cfg m).2)
      = <[cid := dc]> (d_containers (client m))
    ∧ dc_name dc = ("homie_" ++ service_name)%string
    ∧ dc_status dc = "created"
    ∧ dc_image dc = image cfg
    ∧ dc_labels dc = managed_labels service_name cfg
    ∧ _containers (create_container service_name cfg m).2
      = <[service_name := {| c_id := cid;
                             c_name := ("homie_" ++ service_name)%string;
                             c_status := "created" |}]> (_containers m).
Proof.
  unfold create_container. run.
  destruct (_prepare_container_config_result service_name cfg)
    as [(cc & Hcc & _) | [Hcc | Hcc]]; rewrite Hcc; simpl; [|done..].
  apply _prepare_container_config_fields in Hcc as (Hn & Hi & Hl).
  unfold api_create, request. run.
  set (d1 := {| d_containers := d_containers (client m);
                d_used := d_used (client m); d_images := d_images (client m);
                d_faults := tail (d_faults (client m));
                d_calls := d_calls (client m) ++ [CCreate (cc_name cc) (cc_image cc)] |}).
  set (cid := fresh (dom (d_containers (client m)) ∪ d_used (client m))).
  assert (Hfresh : d_containers (client m) !! cid = None).
  { apply not_elem_of_dom. intros Hin.
    apply (is_fresh (dom (d_containers (client m)) ∪ d_used (client m))).
    fold cid. set_solver. }
  destruct (d_faults (client m)) as [|[] fs] eqn:Hf; simpl; try done.
  - destruct (name_in_use (cc_name cc) d1) eqn:Hu; simpl; [done|].
    case_bool_decide; simpl; [|done].
    destruct (network m) as [net|]; simpl.
    + unfold api_connect, lookup_container, request. run.
      rewrite lookup_insert_eq. simpl. intros _.
      eexists cid, _. split; [done|]. split.
      { apply map_eq. intros k. destruct (decide (k = cid)) as [->|?].
        - rewrite lookup_alter_eq, !lookup_insert_eq. simpl. reflexivity.
        - by rewrite lookup_alter_ne, !lookup_insert_ne. }
      simpl. by rewrite Hn.
    + intros _. eexists cid, _. split; [done|]. split; [reflexivity|].
      simpl. by rewrite Hn.
  - destruct (name_in_use (cc_name cc) d1) eqn:Hu; simpl; [done|].
    case_bool_decide; simpl; [|done].
    destruct (network m) as [net|]; simpl.
    + unfold api_connect, lookup_container, request. run.
      destruct fs as [|[] fs']; simpl; try done.
      * rewrite lookup_insert_eq. simpl. intros _.
        eexists cid, _. split; [done|]. split.
        { apply map_eq. intros k. destruct (decide (k = cid)) as [->|?].
          - rewrite lookup_alter_eq, !lookup_insert_eq. simpl. reflexivity.
          - by rewrite lookup_alter_ne, !lookup_insert_ne. }
        simpl. by rewrite Hn.
      * rewrite lookup_insert_eq. simpl. intros _.
        eexists cid, _. split; [done|]. split.
        { apply map_eq. intros k. destruct (decide (k = cid)) as [->|?].
          - rewrite lookup_alter_eq, !lookup_insert_eq. simpl. reflexivity.
          - by rewrite lookup_alter_ne, !lookup_insert_ne. }
        simpl. by rewrite Hn.
    + intros _. eexists cid, _. split; [done|]. split; [reflexivity|].
      simpl. by rewrite Hn.
Qed.

(** *** Listing *)

Lemma list_entry_effect service_name c m :
  ∃ info m',
    list_entry service_name c m = (Ret info, m')
    ∧ d_containers (client m') = d_containers (client m)
    ∧ dom (_containers m') ⊆ dom (_containers m) ∪ {[service_name]}
    ∧ dom (_containers m) ⊆ dom (_containers m')
    ∧ reports (d_containers (client m)) c info.
Proof.
  unfold list_entry, reload, api_reload, api_image, lookup_container, reports.
  run.
  assert (Hdom : ∀ (r : gmap string Container) c',
             dom (<[service_name := c']> r) ⊆ dom r ∪ {[service_name]}
             ∧ dom r ⊆ dom (<[service_name := c']> r)).
  { intros r c'. rewrite dom_insert_L. split.
    - apply union_least; [apply union_subseteq_r | apply union_subseteq_l].
    - apply union_subseteq_r. }
  assert (Hsame : ∀ r : gmap string Container,
             dom r ⊆ dom r ∪ {[service_name]}).
  { intros r. apply union_subseteq_l. }
  destruct (request_spec (CReload (c_id c)) (client m)) as [-> | ->]; simpl.
  2: { do 2 eexists. split_and!; try done; eauto. }
  destruct (d_containers (client m) !! c_id c) as [dc|] eqn:Hdc; simpl.
  2: { do 2 eexists. split_and!; try done; eauto. }
  match goal with |- context [request ?c ?d] =>
    destruct (request_spec c d) as [-> | ->]; simpl end.
  2: { do 2 eexists. split_and!; try done; apply Hdom. }
  rewrite Hdc; simpl.
  match goal with |- context [request ?c ?d] =>
    destruct (request_spec c d) as [-> | ->]; simpl end.
  2: { do 2 eexists. split_and!; try done; apply Hdom. }
  rewrite Hdc; simpl.
  do 2 eexists. split_and!; try done; try apply Hdom;
    try (by intros [? [=]]).
  intros _. eauto 10.
Qed.

Lemma list_loop_effect D items acc m :
  NoDup items.*1 → d_containers (client m) = D →
  ∃ infos m',
    list_loop items acc m = (Ret infos, m')
    ∧ d_containers (client m') = D
    ∧ dom (_containers m) ⊆ dom (_containers m')
    ∧ dom (_containers m') ⊆ dom (_containers m) ∪ list_to_set items.*1
    ∧ dom infos = dom acc ∪ list_to_set items.*1
    ∧ (∀ k c, (k, c) ∈ items → ∃ info, infos !! k = Some info ∧ reports D c info)
    ∧ (∀ k, k ∉ items.*1 → infos !! k = acc !! k).
Proof.
  revert acc m. induction items as [|[name c] items IH]; intros acc m Hnd HD.
  - simpl. unfold ret. exists acc, m. split_and!; try done.
    + set_solver.
    + set_solver.
    + intros k c' Hin. by apply elem_of_nil in Hin.
  - rewrite ?fmap_cons in Hnd. apply NoDup_cons in Hnd as [Hfresh Hnd].
    simpl. unfold bind.
    destruct (list_entry_effect name c m) as (info & m1 & -> & HD1 & Hs1 & Hs2 & Hrep).
    destruct (IH (<[name := info]> acc) m1 Hnd) as
      (infos & m' & -> & HD' & Hsub & Hsup & Hdom & Hitems & Hrest);
      [congruence|].
    exists infos, m'. split_and!; try done.
    + set_solver.
    + rewrite ?fmap_cons. simpl. set_solver.
    + rewrite Hdom, dom_insert_L, ?fmap_cons. simpl. set_solver.
    + intros k c' [[= -> ->] | Hin]%elem_of_cons.
      * exists info. rewrite Hrest by done. rewrite lookup_insert_eq.
        split; [done|]. by rewrite <- HD.
      * by apply Hitems.
    + intros k Hk. rewrite ?fmap_cons in Hk. simpl in Hk.
      apply not_elem_of_cons in Hk as [Hne Hk].
      rewrite Hrest by done. by rewrite lookup_insert_ne.
Qed.

Lemma list_containers_effect m :
  ∃ infos m',
    list_containers m = (Ret infos, m')
    ∧ dom infos = dom (_containers m)
    ∧ dom (_containers m') = dom (_containers m)
    ∧ d_containers (client m') = d_containers (client m)
    ∧ ∀ service_name c, _containers m !! service_name = Some c →
        ∃ info, infos !! service_name = Some info
                ∧ reports (d_containers (client m)) c info.
Proof.
  unfold list_containers. run.
  destruct (list_loop_effect (d_containers (client m))
              (map_to_list (_containers m)) ∅ m)
    as (infos & m' & -> & HD & Hsub & Hsup & Hdom & Hitems & _);
    [apply NoDup_fst_map_to_list | done |].
  assert (Hkeys : list_to_set (map_to_list (_containers m)).*1
                  =@{gset string} dom (_containers m)).
  { apply set_eq. intros k. rewrite elem_of_list_to_set, elem_of_dom.
    rewrite list_elem_of_fmap. split.
    - intros ([k' c] & -> & Hin). apply elem_of_map_to_list in Hin. eauto.
    - intros [c Hc]. exists (k, c). split; [done|].
      by apply elem_of_map_to_list. }
  exists infos, m'. split_and!; try done.
  - rewrite Hdom, Hkeys, dom_empty_L. set_solver.
  - rewrite Hkeys in Hsup. set_solver.
  - intros name c Hc. apply Hitems. by apply elem_of_map_to_list.
Qed.

Lemma list_entry_cases service_name c m :
  ∃ info m' k,
    list_entry service_name c m = (Ret info, m')
    ∧ d_containers (client m') = d_containers (client m)
    ∧ d_faults (client m') = drop k (d_faults (client m))
    ∧ (1 ≤ k ≤ 3)%nat
    ∧ (d_faults (client m) !! 0%nat = Some true → k = 1%nat ∧ info = error_entry)
    ∧ (answered 3 (d_faults (client m)) →
       info = match d_containers (client m) !! c_id c with
              | Some dc => full_entry (c_id c) dc
              | None => error_entry
              end)
    ∧ (info = error_entry
       ∨ ∃ dc, d_containers (client m) !! c_id c = Some dc
               ∧ info = full_entry (c_id c) dc).
Proof.
  unfold list_entry, reload, api_reload, api_image, lookup_container, request,
    answered, full_entry, error_entry.
  run.
  destruct (d_faults (client m)) as [|[] [|[] [|[] fs]]] eqn:Hf; simpl;
    destruct (d_containers (client m) !! c_id c) as [dc|] eqn:Hdc; simpl;
    repeat (rewrite Hdc; simpl); eexists _, _.
  all: first
      [ exists 1%nat; split; [reflexivity|]; split; [reflexivity|];
        split; [reflexivity|]
      | exists 2%nat; split; [reflexivity|]; split; [reflexivity|];
        split; [reflexivity|]
      | exists 3%nat; split; [reflexivity|]; split; [reflexivity|];
        split; [reflexivity|] | match goal with |- ?g => idtac "no" g end ].
  all: (split; [lia|]).
  all: (split; [by intros [=] || done|]).
  all: (split; [|by eauto]); intros Ha.
  all: try done.
  all: try (by destruct (Ha 0%nat ltac:(lia))).
  all: try (by destruct (Ha 1%nat ltac:(lia))).
  all: try (by destruct (Ha 2%nat ltac:(lia))).
Qed.

Lemma list_loop_answered D items acc m infos m' :
  NoDup items.*1 → d_containers (client m) = D →
  answered (3 * length items) (d_faults (client m)) →
  list_loop items acc m = (Ret infos, m') →
  ∀ k c, (k, c) ∈ items →
    infos !! k = Some match D !! c_id c with
                      | Some dc => full_entry (c_id c) dc
                      | None => error_entry
                      end.
Proof.
  revert acc m. induction items as [|[name c] items IH]; intros acc m Hnd HD Ha Hl.
  - intros k c Hin. by apply elem_of_nil in Hin.
  - rewrite ?fmap_cons in Hnd. apply NoDup_cons in Hnd as [Hfresh Hnd].
    simpl in Hl. unfold bind in Hl.
    destruct (list_entry_cases name c m)
      as (info & m1 & n & He & HD1 & Hf1 & Hn & _ & Hinfo & _).
    rewrite He in Hl. rewrite HD in Hinfo.
    assert (Ha1 : answered (3 * length items) (d_faults (client m1))).
    { intros i Hi. rewrite Hf1, lookup_drop. apply Ha. simpl. lia. }
    assert (Hthis : answered 3 (d_faults (client m))).
    { intros i Hi. apply Ha. simpl. lia. }
    destruct (list_loop_effect D items (<[name := info]> acc) m1 Hnd)
      as (infos' & m'' & Hl' & _ & _ & _ & _ & _ & Hrest); [congruence|].
    rewrite Hl in Hl'. injection Hl' as <- <-.
    intros k c' [[= -> ->] | Hin]%elem_of_cons.
    + rewrite Hrest by done. rewrite lookup_insert_eq. by rewrite Hinfo.
    + eapply (IH _ m1); eauto. congruence.
Qed.

Lemma list_loop_refused items acc m infos m' :
  NoDup items.*1 →
  (∀ i, (i < length items)%nat → d_faults (client m) !! i = Some true) →
  list_loop items acc m = (Ret infos, m') →
  ∀ k c, (k, c) ∈ items → infos !! k = Some error_entry.
Proof.
  revert acc m. induction items as [|[name c] items IH]; intros acc m Hnd Ha Hl.
  - intros k c Hin. by apply elem_of_nil in Hin.
  - rewrite ?fmap_cons in Hnd. apply NoDup_cons in Hnd as [Hfresh Hnd].
    simpl in Hl. unfold bind in Hl.
    destruct (list_entry_cases name c m)
      as (info & m1 & n & He & HD1 & Hf1 & Hn & Hfirst & _ & _).
    rewrite He in Hl.
    destruct Hfirst as [-> ->]; [apply Ha; simpl; lia|].
    assert (Ha1 : ∀ i, (i < length items)%nat →
                       d_faults (client m1) !! i = Some true).
    { intros i Hi. rewrite Hf1, lookup_drop. apply Ha. simpl. lia. }
    destruct (list_loop_effect (d_containers (client m1)) items
                (<[name := error_entry]> acc) m1 Hnd)
      as (infos' & m'' & Hl' & _ & _ & _ & _ & _ & Hrest); [done|].
    rewrite Hl in Hl'. injection Hl' as <- <-.
    intros k c' [[= -> ->] | Hin]%elem_of_cons.
    + rewrite Hrest by done. by rewrite lookup_insert_eq.
    + eapply (IH _ m1); eauto.
Qed.

Lemma list_loop_shapes D items acc m infos m' :
  NoDup items.*1 → d_containers (client m) = D →
  list_loop items acc m = (Ret infos, m') →
  ∀ k c, (k, c) ∈ items →
    ∃ info, infos !! k = Some info
            ∧ (info = error_entry
               ∨ ∃ dc, D !! c_id c = Some dc ∧ info = full_entry (c_id c) dc).
Proof.
  revert acc m. induction items as [|[name c] items IH]; intros acc m Hnd HD Hl.
  - intros k c Hin. by apply elem_of_nil in Hin.
  - rewrite ?fmap_cons in Hnd. apply NoDup_cons in Hnd as [Hfresh Hnd].
    simpl in Hl. unfold bind in Hl.
    destruct (list_entry_cases name c m)
      as (info & m1 & n & He & HD1 & _ & _ & _ & _ & Hshape).
    rewrite He in Hl. rewrite HD in Hshape.
    destruct (list_loop_effect D items (<[name := info]> acc) m1 Hnd)
      as (infos' & m'' & Hl' & _ & _ & _ & _ & _ & Hrest); [congruence|].
    rewrite Hl in Hl'. injection Hl' as <- <-.
    intros k c' [[= -> ->] | Hin]%elem_of_cons.
    + exists info. rewrite Hrest by done. by rewrite lookup_insert_eq.
    + eapply (IH _ m1); eauto. congruence.
Qed.

(** X4: [list_containers] never raises and answers for every registered
    service and no other, and every entry has one of two shapes: the full
    one, with the runtime's id, name, status and image of the instance,
    or the error one, with status ["error"] and an error text.  When the
    runtime refuses none of the requests of the listing (three for each
    registered service), each service whose instance the runtime has gets
    the full entry and each one whose instance is gone the error entry.
    When the runtime refuses every request, every entry is the error
    entry.  For one turn of the loop: a refused reload, or an instance
    that is gone, gives the error entry; three answered requests for an
    instance the runtime has give the full entry.  The registered names
    and the runtime's containers are the same afterwards. *)
Theorem list_containers_covers_registry m :
  let D := d_containers (client m) in
  let faults := d_faults (client m) in
  ∃ infos m',
    list_containers m = (Ret infos, m')
    ∧ dom infos = dom (_containers m)
    ∧ dom (_containers m') = dom (_containers m)
    ∧ d_containers (client m') = D
    ∧ (∀ service_name c, _containers m !! service_name = Some c →
        ∃ info, infos !! service_name = Some info
                ∧ reports D c info
                ∧ (info = error_entry
                   ∨ ∃ dc, D !! c_id c = Some dc
                           ∧ info = full_entry (c_id c) dc))
    ∧ (answered (3 * size (_containers m)) faults →
       ∀ service_name c, _containers m !! service_name = Some c →
         infos !! service_name
         = Some match D !! c_id c with
                | Some dc => full_entry (c_id c) dc
                | None => error_entry
                end)
    ∧ ((∀ i, (i < size (_containers m))%nat → faults !! i = Some true) →
       ∀ service_name, is_Some (_containers m !! service_name) →
         infos !! service_name = Some error_entry)
    ∧ (∀ service_name c,
         (faults !! 0%nat = Some true ∨ D !! c_id c = None →
          (list_entry service_name c m).1 = Ret error_entry)
         ∧ (answered 3 faults → ∀ dc, D !! c_id c = Some dc →
            (list_entry service_name c m).1 = Ret (full_entry (c_id c) dc))).
Proof.
  intros D faults. subst D faults.
  destruct (list_containers_effect m) as (infos & m' & Hl & Hdom & Hreg & HD & Hrep).
  exists infos, m'. split_and!; try done.
  - intros name c Hc. destruct (Hrep name c Hc) as (info & Hinfo & Hr).
    exists info. split_and!; [done..|].
    unfold list_containers in Hl. run.
    pose proof (list_loop_shapes _ _ _ _ _ _ (NoDup_fst_map_to_list _)
                  eq_refl Hl name c) as Hs.
    rewrite Hinfo in Hs. destruct Hs as (? & [= <-] & Hs); [|done].
    by apply elem_of_map_to_list.
  - intros Ha name c Hc. unfold list_containers in Hl. run.
    eapply (list_loop_answered _ (map_to_list (_containers m)) ∅ m infos m');
      [apply NoDup_fst_map_to_list | done | by rewrite length_map_to_list
      | done | by apply elem_of_map_to_list].
  - intros Ha name [c Hc]. unfold list_containers in Hl. run.
    eapply (list_loop_refused (map_to_list (_containers m)) ∅ m infos m');
      [apply NoDup_fst_map_to_list | by rewrite length_map_to_list
      | done | by apply elem_of_map_to_list].
  - intros name c.
    destruct (list_entry_cases name c m)
      as (info & m1 & n & -> & _ & _ & _ & Hfirst & Hall & Hshape); simpl.
    split.
    + intros [Hf | Hnone]; [by destruct (Hfirst Hf) as [_ ->]|].
      destruct Hshape as [-> | (dc & Hdc & _)]; [done | congruence].
    + intros Ha dc Hdc. rewrite (Hall Ha), Hdc. done.
Qed.

(** X5: After [create_container] returned [True], the service is registered
    with an instance that the runtime holds as [created]:
    [get_container_status] answers ["created"] when the runtime answers
    (and ["error"] when it does not), and [list_containers] has an entry
    for the service. *)
Theorem create_then_read service_name cfg m :
  (create_container service_name cfg m).1 = Ret true →
  let m' := (create_container service_name cfg m).2 in
  (d_faults (client m') !! 0%nat ≠ Some true →
     (get_container_status service_name m').1 = Ret "created")
  ∧ ((get_container_status service_name m').1 = Ret "created"
     ∨ (get_container_status service_name m').1 = Ret ERROR)
  ∧ ∃ infos, (list_containers m').1 = Ret infos
             ∧ is_Some (infos !! service_name).
Proof.
  intros Hok m'.
  destruct (create_container_success service_name cfg m Hok)
    as (cid & dc & _ & HD & _ & Hst & _ & _ & Hreg). fold m' in HD, Hreg.
  assert (Hc : _containers m' !! service_name
               = Some {| c_id := cid; c_name := ("homie_" ++ service_name)%string;
                         c_status := "created" |}).
  { rewrite Hreg. apply lookup_insert_eq. }
  assert (Hdc : d_containers (client m') !! cid = Some dc).
  { rewrite HD. apply lookup_insert_eq. }
  split_and!.
  - intros Hfault.
    unfold get_container_status, reload, api_reload, lookup_container, request.
    run. rewrite Hc. simpl.
    destruct (d_faults (client m')) as [|[] fs]; simpl in *; try done;
      rewrite Hdc; simpl; by rewrite Hst.
  - pose proof (get_container_status_spec service_name m') as Hs.
    rewrite Hc in Hs. destruct Hs as [Hs | (dc' & Hdc' & Hs)]; [by right|].
    left. simpl in Hdc'. rewrite Hdc in Hdc'. simplify_eq. by rewrite Hs, Hst.
  - destruct (list_containers_effect m')
      as (infos & m'' & Hl & Hdom & _). exists infos. rewrite Hl.
    split; [done|]. apply elem_of_dom. rewrite Hdom. apply elem_of_dom. eauto.
Qed.

(** *** Discovery *)

Lemma register_discovered_spec cs m :
  register_discovered cs m
  = (Ret tt, set_registry (λ r, foldl register_one r cs) m).
Proof.
  revert m. induction cs as [|[cid dc] cs IH]; intros m; simpl.
  - unfold ret. by destruct m.
  - unfold register_one at 2. simpl.
    destruct (dc_labels dc !! "io.homie.service") as [n|]; [|apply IH].
    case_bool_decide; [apply IH|].
    unfold bind, modify. rewrite IH. done.
Qed.

Lemma register_all_lookup cs r service_name c :
  foldl register_one r cs !! service_name = Some c →
  (r !! service_name = Some c
   ∧ ∀ cid dc, (cid, dc) ∈ cs →
       dc_labels dc !! "io.homie.service" = Some service_name →
       service_name = EmptyString)
  ∨ ∃ cid dc, (cid, dc) ∈ cs
              ∧ dc_labels dc !! "io.homie.service" = Some service_name
              ∧ c = discovered_entry cid dc.
Proof.
  revert r. induction cs as [|[cid dc] cs IH]; intros r; simpl.
  - intros Hr. left. split; [done|]. intros ? ? Hin. by apply elem_of_nil in Hin.
  - intros [[Hr Hnone] | (cid' & dc' & Hin & ?)]%IH.
    + unfold register_one in Hr. simpl in Hr.
      destruct (dc_labels dc !! "io.homie.service") as [n|] eqn:Hn.
      * case_bool_decide as Hempty.
        -- left. split; [done|]. intros cid' dc' [[= -> ->] | Hin]%elem_of_cons Hl.
           ++ congruence.
           ++ eauto.
        -- destruct (decide (n = service_name)) as [->|Hne].
           ++ rewrite lookup_insert_eq in Hr. simplify_eq. right.
              exists cid, dc. split_and!; [apply list_elem_of_here | done..].
           ++ rewrite lookup_insert_ne in Hr by done. left. split; [done|].
              intros cid' dc' [[= -> ->] | Hin]%elem_of_cons Hl;
                [congruence | eauto].
      * left. split; [done|].
        intros cid' dc' [[= -> ->] | Hin]%elem_of_cons Hl; [congruence | eauto].
    + right. exists cid', dc'. split; [by apply list_elem_of_further | done].
Qed.

Lemma register_all_complete cs r cid dc service_name :
  (cid, dc) ∈ cs →
  dc_labels dc !! "io.homie.service" = Some service_name →
  service_name ≠ EmptyString →
  is_Some (foldl register_one r cs !! service_name).
Proof.
  intros Hin Hl Hne.
  assert (Hkeep : ∀ cs r, is_Some (r !! service_name) →
                          is_Some (foldl register_one r cs !! service_name)).
  { clear. induction cs as [|[cid dc] cs IH]; intros r Hr; simpl; [done|].
    apply IH. unfold register_one. simpl.
    destruct (dc_labels dc !! "io.homie.service") as [n|]; [|done].
    case_bool_decide; [done|].
    destruct (decide (n = service_name)) as [->|?].
    - rewrite lookup_insert_eq. eauto.
    - by rewrite lookup_insert_ne. }
  revert r. induction cs as [|kc cs IH]; intros r; [by apply elem_of_nil in Hin|].
  apply elem_of_cons in Hin as [<- | Hin]; simpl.
  - apply Hkeep. unfold register_one. simpl. rewrite Hl.
    rewrite bool_decide_eq_false_2 by done. rewrite lookup_insert_eq. eauto.
  - by apply IH.
Qed.

Lemma register_all_unique cs r cid dc service_name :
  (cid, dc) ∈ cs →
  dc_labels dc !! "io.homie.service" = Some service_name →
  service_name ≠ EmptyString →
  (∀ cid' dc', (cid', dc') ∈ cs →
     dc_labels dc' !! "io.homie.service" = Some service_name →
     (cid', dc') = (cid, dc)) →
  foldl register_one r cs !! service_name = Some (discovered_entry cid dc).
Proof.
  intros Hin Hl Hne Huniq.
  destruct (register_all_complete cs r cid dc service_name Hin Hl Hne) as [c Hc].
  rewrite Hc. f_equal.
  apply register_all_lookup in Hc as [[_ Hnone] | (cid' & dc' & Hin' & Hl' & ->)].
  - destruct Hne. eauto.
  - by specialize (Huniq _ _ Hin' Hl') as [= -> ->].
Qed.

Lemma register_all_other cs r service_name :
  (∀ cid dc, (cid, dc) ∈ cs →
     dc_labels dc !! "io.homie.service" ≠ Some service_name) →
  foldl register_one r cs !! service_name = r !! service_name.
Proof.
  revert r. induction cs as [|[cid dc] cs IH]; intros r Hnone; simpl; [done|].
  etrans; [apply IH|].
  - intros cid' dc' Hin. apply (Hnone cid'). by apply list_elem_of_further.
  - unfold register_one. simpl.
    destruct (dc_labels dc !! "io.homie.service") as [n|] eqn:Hn; [|done].
    case_bool_decide; [done|].
    rewrite lookup_insert_ne; [done|]. intros ->.
    by apply (Hnone cid dc); [apply list_elem_of_here|].
Qed.

Lemma register_all_empty cs r :
  foldl register_one r cs !! EmptyString = r !! EmptyString.
Proof.
  revert r. induction cs as [|[cid dc] cs IH]; intros r; simpl; [done|].
  rewrite IH. unfold register_one. simpl.
  destruct (dc_labels dc !! "io.homie.service") as [n|]; [|done].
  case_bool_decide; [done|]. by rewrite lookup_insert_ne.
Qed.

Lemma elem_of_managed_containers d cid dc :
  (cid, dc) ∈ managed_containers d
  ↔ d_containers d !! cid = Some dc
    ∧ dc_labels dc !! "io.homie.managed" = Some "true".
Proof.
  unfold managed_containers. rewrite list_elem_of_filter, elem_of_map_to_list.
  simpl. tauto.
Qed.

Lemma _discover_containers_effect m :
  ∃ d', d_containers d' = d_containers (client m)
    ∧ d_calls d' = d_calls (client m) ++ [CList]
    ∧ d_faults d' = tail (d_faults (client m))
    ∧ _discover_containers m
      = (Ret tt,
         if bool_decide (head (d_faults (client m)) = Some true)
         then set_client d' m
         else set_registry
                (λ r, foldl register_one r (managed_containers (client m)))
                (set_client d' m)).
Proof.
  eexists {| d_containers := d_containers (client m);
             d_used := d_used (client m); d_images := d_images (client m);
             d_faults := tail (d_faults (client m));
             d_calls := d_calls (client m) ++ [CList] |}.
  split_and!; [done..|].
  unfold _discover_containers, try_except, on_client, api_list, bind, get, ret,
    request.
  destruct m as [d net r]. simpl.
  destruct (d_faults d) as [|[] fs] eqn:Hf; simpl; try done;
    rewrite register_discovered_spec; done.
Qed.

(** X6: Discovery never raises and changes nothing in the runtime.  When the
    list request is refused the registry is kept.  Otherwise every
    managed container with a non-empty service label has its label
    registered to a managed container bearing it, every entry under a
    label that no managed container bears is kept as it was (the
    registry is not cleared), and no other entry appears. *)
Theorem discovery_registers_managed m :
  let m' := (_discover_containers m).2 in
  (_discover_containers m).1 = Ret tt
  ∧ d_containers (client m') = d_containers (client m)
  ∧ d_calls (client m') = d_calls (client m) ++ [CList]
  ∧ (head (d_faults (client m)) = Some true → _containers m' = _containers m)
  ∧ (head (d_faults (client m)) ≠ Some true →
     (∀ cid dc service_name,
        d_containers (client m) !! cid = Some dc →
        dc_labels dc !! "io.homie.managed" = Some "true" →
        dc_labels dc !! "io.homie.service" = Some service_name →
        service_name ≠ EmptyString →
        ∃ cid' dc',
          d_containers (client m) !! cid' = Some dc'
          ∧ dc_labels dc' !! "io.homie.managed" = Some "true"
          ∧ dc_labels dc' !! "io.homie.service" = Some service_name
          ∧ _containers m' !! service_name
            = Some {| c_id := cid'; c_name := dc_name dc';
                      c_status := dc_status dc' |})
     ∧ (∀ service_name,
          (∀ cid dc,
             d_containers (client m) !! cid = Some dc →
             dc_labels dc !! "io.homie.managed" = Some "true" →
             dc_labels dc !! "io.homie.service" ≠ Some service_name) →
          _containers m' !! service_name = _containers m !! service_name)
     ∧ (∀ service_name,
          service_name = EmptyString →
          _containers m' !! service_name = _containers m !! service_name)).
Proof.
  destruct (_discover_containers_effect m) as (d' & HD & Hcalls & _ & ->).
  simpl. split; [done|].
  case_bool_decide as Hf; simpl.
  { split_and!; try done. }
  split_and!; try done.
  intros _. split_and!.
  - intros cid dc n Hd Hm Hs Hne.
    assert (Hin : (cid, dc) ∈ managed_containers (client m))
      by by apply elem_of_managed_containers.
    destruct (register_all_complete _ (_containers m) _ _ _ Hin Hs Hne)
      as [c Hc].
    pose proof Hc as Hc'.
    apply register_all_lookup in Hc' as [[_ Hnone] | (cid' & dc' & Hin' & Hs' & ->)].
    + destruct Hne. eauto.
    + apply elem_of_managed_containers in Hin' as [? ?].
      exists cid', dc'. by rewrite Hc.
  - intros n Hnone. apply register_all_other.
    intros cid dc [? ?]%elem_of_managed_containers. eauto.
  - intros n ->. apply register_all_empty.
Qed.

(** X7: A container created for a service is found again after a restart of
    the orchestrator: when the configuration's own labels do not
    override the two management labels, the service name is not empty
    and no other managed container bears the service label, discovery on
    an empty registry registers the service to the very container that
    [create_container] registered. *)
Theorem created_container_is_rediscovered service_name cfg net m :
  (create_container service_name cfg m).1 = Ret true →
  labels cfg !! "io.homie.managed" = None →
  labels cfg !! "io.homie.service" = None →
  service_name ≠ EmptyString →
  (∀ cid dc, d_containers (client m) !! cid = Some dc →
             dc_labels dc !! "io.homie.managed" = Some "true" →
             dc_labels dc !! "io.homie.service" ≠ Some service_name) →
  let m1 := (create_container service_name cfg m).2 in
  head (d_faults (client m1)) ≠ Some true →
  _containers (_discover_containers (restarted net (client m1))).2
    !! service_name
  = _containers m1 !! service_name.
Proof.
  intros Hok Hm Hs Hne Hnone m1 Hf. subst m1.
  destruct (create_container_success _ _ _ Hok)
    as (cid & dc & Hfresh & HD & Hname & Hst & _ & Hl & Hreg).
  rewrite Hreg, lookup_insert_eq.
  set (m1 := (create_container service_name cfg m).2) in *.
  destruct (_discover_containers_effect (restarted net (client m1)))
    as (d' & _ & _ & _ & ->).
  simpl. rewrite bool_decide_eq_false_2 by done. simpl.
  assert (Hlm : dc_labels dc !! "io.homie.managed" = Some "true").
  { rewrite Hl. unfold managed_labels.
    apply lookup_union_Some_raw. right. split; [done|].
    by rewrite lookup_insert_eq. }
  assert (Hls : dc_labels dc !! "io.homie.service" = Some service_name).
  { rewrite Hl. unfold managed_labels.
    apply lookup_union_Some_raw. right. split; [done|].
    rewrite lookup_insert_ne by done. by rewrite lookup_insert_eq. }
  rewrite (register_all_unique _ _ cid dc service_name); try done.
  - unfold discovered_entry. by rewrite Hname, Hst.
  - apply elem_of_managed_containers. rewrite HD, lookup_insert_eq. done.
  - intros cid' dc' [Hd' Hm']%elem_of_managed_containers Hs'.
    rewrite HD in Hd'.
    destruct (decide (cid' = cid)) as [->|Hneq].
    + rewrite lookup_insert_eq in Hd'. by simplify_eq.
    + rewrite lookup_insert_ne in Hd' by done.
      by destruct (Hnone cid' dc' Hd' Hm').
Qed.

Lemma remove_twice_witness :
  remove_container "web" true (remove_container "web" false (discovered [])).2
  = (Ret false, (remove_container "web" false (discovered [])).2).
Proof. apply (remove_twice "web" false true (discovered [])). by vm_compute. Defined.

Lemma create_then_read_witness :
  (get_container_status "api"
     (create_container "api" cfg_v1 (fresh_manager [])).2).1 = Ret "created".
Proof.
  apply (proj1 (create_then_read "api" cfg_v1 (fresh_manager [])
                  ltac:(by vm_compute))).
  by vm_compute.
Defined.

Lemma created_container_is_rediscovered_witness :
  _containers
    (_discover_containers
       (restarted (Some "homie_network")
          (client (create_container "api" cfg_v1 (fresh_manager [])).2))).2
    !! "api"
  = _containers (create_container "api" cfg_v1 (fresh_manager [])).2 !! "api".
Proof.
  apply (created_container_is_rediscovered "api" cfg_v1 (Some "homie_network")
           (fresh_manager [])); try by vm_compute.
  intros cid dc Hd _. change (d_containers (client (fresh_manager [])))
    with ({[ 0%nat := dc_web ]} : gmap nat dcontainer) in Hd.
  apply lookup_singleton_Some in Hd as [<- <-]. by vm_compute.
Defined.

End ContainerManagerMore.


(** ** Health monitor *)

Module HealthMonitorMore.
Import Py Py.Notations Docker ContainerManager HealthMonitor.
Import ContainerManagerProps ContainerManagerMore HealthMonitorProps Examples.
Local Open Scope py_scope.
Local Open Scope list_scope.

Lemma classify_healthy info :
  (classify info).1 = "healthy" ↔ ci_status info = Some "running".
Proof.
  unfold classify.
  destruct (ci_status info) as [st|]; simpl;
    repeat case_bool_decide; simplify_eq/=;
    destruct (ci_error info); simpl; split; congruence.
Qed.

Lemma _perform_health_checks_effect h :
  ∃ infos cm',
    list_containers (container_manager h) = (Ret infos, cm')
    ∧ _perform_health_checks h
      = (Ret tt, set_checks (store_all (now h) (map_to_list infos))
                   (set_manager cm' h))
    ∧ ∀ name, health_checks (_perform_health_checks h).2 !! name
              = match infos !! name with
                | Some info => Some (verdict_at (now h) name info)
                | None => health_checks h !! name
                end.
Proof.
  destruct (list_containers_effect (container_manager h))
    as (infos & cm' & Hlist & _).
  exists infos, cm'. split; [done|].
  assert (Heq : _perform_health_checks h
                = (Ret tt, set_checks (store_all (now h) (map_to_list infos))
                             (set_manager cm' h))).
  { unfold _perform_health_checks, on_manager, try_except, bind.
    rewrite Hlist. simpl. by rewrite check_each_spec. }
  split; [done|]. intros name. rewrite Heq. simpl.
  destruct (infos !! name) as [info|] eqn:Hi.
  - apply store_all_lookup; [apply NoDup_fst_map_to_list|].
    by apply elem_of_map_to_list.
  - apply store_all_other. intros [[k i] [-> Hin]]%list_elem_of_fmap.
    apply elem_of_map_to_list in Hin. simpl in Hi. congruence.
Qed.

(** X8: A pass of the monitor never raises.  It stores a verdict for every
    registered service and forgets none: the verdict of a name that is
    no longer registered stays as it was.  The clock, the registered
    names and the runtime's containers are left as they were. *)
Theorem health_pass_never_forgets h :
  let h' := (_perform_health_checks h).2 in
  (_perform_health_checks h).1 = Ret tt
  ∧ dom (health_checks h')
    = dom (health_checks h) ∪ dom (_containers (container_manager h))
  ∧ (∀ name, _containers (container_manager h) !! name = None →
             health_checks h' !! name = health_checks h !! name)
  ∧ now h' = now h
  ∧ dom (_containers (container_manager h'))
    = dom (_containers (container_manager h))
  ∧ d_containers (client (container_manager h'))
    = d_containers (client (container_manager h)).
Proof.
  destruct (_perform_health_checks_effect h) as (infos & cm' & Hlist & Heq & Hlk).
  destruct (list_containers_effect (container_manager h))
    as (infos' & cm'' & Hlist' & Hdom & Hreg & HD & _).
  rewrite Hlist in Hlist'. simplify_eq.
  simpl. split_and!.
  - by rewrite Heq.
  - apply set_eq. intros name.
    rewrite elem_of_union, <- Hdom, !elem_of_dom, Hlk.
    destruct (infos' !! name) as [info|] eqn:Hi.
    + split; [right|]; eauto.
    + split; [by left|]. intros [?|[? [=]]]. done.
  - intros name Hname. rewrite Hlk.
    assert (infos' !! name = None) as ->; [|done].
    apply not_elem_of_dom. rewrite Hdom. by apply not_elem_of_dom.
  - by rewrite Heq.
  - by rewrite Heq.
  - by rewrite Heq.
Qed.

(** X9: After a pass, [is_service_healthy] answers for a listed service
    whether the listing showed it as running, and for any other name
    what it answered before the pass.  A registered service that is
    reported healthy has an instance that the runtime holds as
    [running]. *)
Theorem is_service_healthy_after_pass h :
  let h' := (_perform_health_checks h).2 in
  ∃ infos cm',
    list_containers (container_manager h) = (Ret infos, cm')
    ∧ (∀ name,
         is_service_healthy name h'
         = match infos !! name with
           | Some info => bool_decide (ci_status info = Some "running")
           | None => is_service_healthy name h
           end)
    ∧ (∀ name c,
         _containers (container_manager h) !! name = Some c →
         is_service_healthy name h' = true →
         ∃ dc, d_containers (client (container_manager h)) !! c_id c = Some dc
               ∧ dc_status dc = "running").
Proof.
  destruct (_perform_health_checks_effect h) as (infos & cm' & Hlist & Heq & Hlk).
  destruct (list_containers_effect (container_manager h))
    as (infos' & cm'' & Hlist' & _ & _ & _ & Hrep).
  rewrite Hlist in Hlist'. simplify_eq.
  simpl. exists infos', cm''. split; [done|].
  assert (Hall : ∀ name,
    is_service_healthy name (_perform_health_checks h).2
    = match infos' !! name with
      | Some info => bool_decide (ci_status info = Some "running")
      | None => is_service_healthy name h
      end).
  { intros name. unfold is_service_healthy, get_service_health. rewrite Hlk.
    destruct (infos' !! name) as [info|]; [|done]. simpl.
    apply bool_decide_ext, classify_healthy. }
  split; [done|]. intros name c Hc. rewrite Hall.
  destruct (Hrep name c Hc) as (info & -> & Herr & Hst & _).
  intros Hrun%bool_decide_eq_true.
  destruct (ci_error info) as [e|] eqn:He.
  - rewrite Hst in Hrun by eauto. done.
  - destruct Herr as (dc & Hdc & _ & _ & Hs & _); [done|].
    exists dc. split; [done|]. congruence.
Qed.

(** X10: The counts of [get_overall_health] add up, and its count of
    unhealthy services is that of [get_unhealthy_services] plus the
    verdicts that are neither healthy nor unhealthy, error or warning
    (such as [unknown]), which [get_unhealthy_services] does not
    report. *)
Theorem unhealthy_counts h :
  let s := summary_of (get_overall_health h) in
  (healthy_services s + unhealthy_services s = total_services s)%nat
  ∧ total_services s = size (health_checks h)
  ∧ unhealthy_services s
    = (length (get_unhealthy_services h)
       + length (filter (λ check, status check ∉ ["healthy"; "unhealthy";
                                                  "error"; "warning"])
                        (get_all_health_checks h)))%nat
  ∧ ∀ check, check ∈ get_unhealthy_services h →
             check ∈ get_all_health_checks h ∧ status check ≠ "healthy".
Proof.
  simpl. unfold get_unhealthy_services, get_all_health_checks.
  assert (Hlen : length (map_to_list (health_checks h)).*2
                 = size (health_checks h)).
  { by rewrite length_fmap, length_map_to_list. }
  generalize dependent ((map_to_list (health_checks h)).*2). intros l Hlen.
  assert (Hcount :
    (length (filter (λ check, status check = "healthy") l)
     + (length (filter (λ check, status check ∈ ["unhealthy"; "error"; "warning"]) l)
        + length (filter (λ check, status check ∉ ["healthy"; "unhealthy";
                                                   "error"; "warning"]) l))
     = length l)%nat).
  { clear. induction l as [|c l IH]; [done|].
    rewrite !filter_cons.
    repeat case_decide; simpl; try lia; exfalso;
      repeat match goal with
             | H : context [_ ∈ _ :: _] |- _ => rewrite elem_of_cons in H
             | H : context [_ ∈ []] |- _ => rewrite elem_of_nil in H
             end; intuition congruence. }
  split_and!; try lia.
  intros check [Hst Hin]%list_elem_of_filter. split; [done|].
  intros Heq. rewrite Heq in Hst.
  rewrite !elem_of_cons, elem_of_nil in Hst. intuition congruence.
Qed.

End HealthMonitorMore.


(** ** Scheduler *)

Module SchedulerMore.
Import Py Py.Notations Scheduler SchedulerProps.
Local Open Scope py_scope.
Local Open Scope list_scope.

Section Lifecycle.
Context {E : Engine} {W : Type}.
Context (JobLookupError : exception).


Lemma make_trigger_pure sch :
  ∃ r, (∀ s : scheduler W, make_trigger sch s = (r, s))
       ∧ ∀ e, r = Raise e → e = ValueError.
Proof.
  unfold make_trigger.
  destruct (_is_cron_schedule sch).
  { destruct (from_crontab sch); eexists; (split; [intros s; reflexivity|]);
      by intros e [=]. }
  destruct (_is_interval_schedule sch);
    [|eexists; (split; [intros s; reflexivity|]); by intros e [=]].
  unfold bind, of_result.
  destruct (_parse_interval sch) as [n|e] eqn:Hp.
  - destruct (interval_trigger n); eexists; (split; [intros s; reflexivity|]);
      by intros e [=].
  - eexists; (split; [intros s; reflexivity|]). intros e' [= <-].
    by apply (_parse_interval_raises sch).
Qed.

Lemma disable_task_unknown id (s : scheduler W) :
  tasks s !! id = None → disable_task JobLookupError id s = (Ret false, s).
Proof. intros H. unfold disable_task. run. by rewrite H. Qed.

Lemma disable_task_known id (s : scheduler W) a t :
  tasks s !! id = Some a → task_objects s !! a = Some t →
  disable_task JobLookupError id s
  = if enabled t then
      match job t, jobstore s !! id with
      | None, _ =>
          (Ret true, set_task_objects (alter (with_enabled false) a) s)
      | Some _, None =>
          (Ret false, set_task_objects (alter (with_enabled false) a) s)
      | Some _, Some _ =>
          (Ret true,
           set_task_objects (alter (with_next_run None) a)
             (set_task_objects (alter (with_job None) a)
                (set_jobstore (delete id)
                   (set_task_objects (alter (with_enabled false) a) s))))
      end
    else (Ret true, s).
Proof.
  intros Ha Ht. unfold disable_task, remove_job. run. rewrite Ha, Ht.
  destruct (enabled t); [|done]. simpl.
  destruct (job t); simpl; [|done].
  destruct (jobstore s !! id); simpl; done.
Qed.

(** X11: [disable_task] never raises and never changes the task table.  An
    unknown id gives [False] and a task that is already disabled gives
    [True], both without any effect.  An enabled task is marked
    disabled; when it holds a job that the engine knows, the job is
    taken from the engine and the task's job and next run are cleared;
    when the engine does not know the job, the call returns [False] and
    the task stays marked disabled with its job and next run in place. *)
Theorem disable_task_outcomes id (s : scheduler W) :
  let out := disable_task JobLookupError id s in
  (∃ b, out.1 = Ret b)
  ∧ tasks out.2 = tasks s
  ∧ (tasks s !! id = None → out = (Ret false, s))
  ∧ ∀ a t, tasks s !! id = Some a → task_objects s !! a = Some t →
      (enabled t = false → out = (Ret true, s))
      ∧ (enabled t = true → job t = None →
           out.1 = Ret true ∧ jobstore out.2 = jobstore s
           ∧ task_objects out.2 !! a = Some (with_enabled false t))
      ∧ (enabled t = true → is_Some (job t) → is_Some (jobstore s !! id) →
           out.1 = Ret true ∧ jobstore out.2 = delete id (jobstore s)
           ∧ task_objects out.2 !! a
             = Some (with_next_run None (with_job None (with_enabled false t))))
      ∧ (enabled t = true → is_Some (job t) → jobstore s !! id = None →
           out.1 = Ret false ∧ jobstore out.2 = jobstore s
           ∧ task_objects out.2 !! a = Some (with_enabled false t)).
Proof.
  simpl.
  destruct (tasks s !! id) as [a|] eqn:Ha.
  2: { rewrite (disable_task_unknown _ _ Ha). split_and!; eauto; done. }
  destruct (task_objects s !! a) as [t|] eqn:Ht.
  2: { unfold disable_task. run. rewrite Ha, Ht. simpl.
       split_and!; eauto; try done. intros a' t' [= <-]. congruence. }
  rewrite (disable_task_known _ _ _ _ Ha Ht).
  assert (Hcore :
    (∃ b, (if enabled t then
             match job t, jobstore s !! id with
             | None, _ =>
                 (Ret true, set_task_objects (alter (with_enabled false) a) s)
             | Some _, None =>
                 (Ret false, set_task_objects (alter (with_enabled false) a) s)
             | Some _, Some _ =>
                 (Ret true,
                  set_task_objects (alter (with_next_run None) a)
                    (set_task_objects (alter (with_job None) a)
                       (set_jobstore (delete id)
                          (set_task_objects (alter (with_enabled false) a) s))))
             end
           else (Ret true, s)).1 = Ret b)
    ∧ tasks (if enabled t then
               match job t, jobstore s !! id with
               | None, _ =>
                   (Ret true, set_task_objects (alter (with_enabled false) a) s)
               | Some _, None =>
                   (Ret false, set_task_objects (alter (with_enabled false) a) s)
               | Some _, Some _ =>
                   (Ret true,
                    set_task_objects (alter (with_next_run None) a)
                      (set_task_objects (alter (with_job None) a)
                         (set_jobstore (delete id)
                            (set_task_objects (alter (with_enabled false) a) s))))
               end
             else (Ret true, s)).2 = tasks s).
  { destruct (enabled t), (job t), (jobstore s !! id); simpl; eauto. }
  destruct Hcore as [Hb Htasks].
  split_and!; [done..|].
  intros a' t' [= <-] Ht'. rewrite Ht in Ht'. injection Ht' as <-.
  split_and!.
  - by intros ->.
  - intros -> ->. simpl. by rewrite lookup_alter_eq, Ht.
  - intros -> [j ->] [j' ->]. simpl.
    by rewrite !lookup_alter_eq, Ht.
  - intros -> [j ->] ->. simpl. by rewrite lookup_alter_eq, Ht.
Qed.

Lemma enable_task_unknown id (s : scheduler W) :
  tasks s !! id = None → enable_task id s = (Ret false, s).
Proof. intros H. unfold enable_task. run. by rewrite H. Qed.

Lemma enable_task_enabled id (s : scheduler W) a t :
  tasks s !! id = Some a → task_objects s !! a = Some t → enabled t = true →
  enable_task id s = (Ret true, s).
Proof.
  intros Ha Ht He. unfold enable_task. run. by rewrite Ha, Ht, He.
Qed.

Lemma enable_task_scheduled id (s : scheduler W) a t tr :
  tasks s !! id = Some a → task_objects s !! a = Some t → enabled t = false →
  (make_trigger (schedule t) s).1 = Ret (Some tr) →
  jobstore s !! id = None →
  let j := fresh (dom (job_objects s)) in
  enable_task id s
  = (Ret true,
     {| task_objects :=
          alter (with_next_run (get_next_fire_time tr (clock s))) a
            (alter (with_job (Some j)) a
               (alter (with_enabled true) a (task_objects s)));
        job_objects :=
          <[j := {| job_id := id; job_trigger := tr; job_args := a;
                    next_run_time := get_next_fire_time tr (clock s) |}]>
            (job_objects s);
        jobstore := <[id := j]> (jobstore s);
        tasks := tasks s; clock := clock s; world := world s |}).
Proof.
  intros Ha Ht He Htr Hj j.
  destruct (make_trigger_pure (schedule t)) as [r [Hr Hexc]].
  rewrite Hr in Htr. simpl in Htr. subst r.
  unfold enable_task, add_job. run. rewrite Ha, Ht, He. simpl.
  rewrite Hr. simpl. rewrite Hj. simpl.
  rewrite lookup_insert_eq. simpl. done.
Qed.

Lemma enable_task_refused id (s : scheduler W) a t :
  tasks s !! id = Some a → task_objects s !! a = Some t → enabled t = false →
  (∀ tr, (make_trigger (schedule t) s).1 = Ret (Some tr) →
         is_Some (jobstore s !! id)) →
  enable_task id s
  = (Ret false, set_task_objects (alter (with_enabled true) a) s).
Proof.
  intros Ha Ht He Hno.
  destruct (make_trigger_pure (schedule t)) as [r [Hr Hexc]].
  rewrite Hr in Hno. simpl in Hno.
  unfold enable_task, add_job. run. rewrite Ha, Ht, He. simpl.
  rewrite Hr. simpl.
  destruct r as [[tr|]|e]; simpl; try done.
  - destruct (Hno tr eq_refl) as [j ->]. done.
  - by rewrite (Hexc e eq_refl).
Qed.

(** X12: [enable_task] on a disabled task whose schedule gives a trigger and
    whose id the engine does not hold: the task is marked enabled, a
    new job with that trigger is registered under the task's id and is
    bound to the task, and the task's next run is the job's.  A task
    that is already enabled is left alone: nothing is scheduled for
    it, whether or not it holds a job. *)
Theorem enable_task_schedules id (s : scheduler W) a t :
  tasks s !! id = Some a → task_objects s !! a = Some t →
  let out := enable_task id s in
  (enabled t = true → out = (Ret true, s))
  ∧ (enabled t = false →
     ∀ tr, (make_trigger (schedule t) s).1 = Ret (Some tr) →
           jobstore s !! id = None →
           out.1 = Ret true
           ∧ tasks out.2 = tasks s
           ∧ ∃ j, job_objects s !! j = None
                  ∧ jobstore out.2 = <[id := j]> (jobstore s)
                  ∧ job_objects out.2
                    = <[j := {| job_id := id; job_trigger := tr; job_args := a;
                                next_run_time :=
                                  get_next_fire_time tr (clock s) |}]>
                        (job_objects s)
                  ∧ task_objects out.2 !! a
                    = Some (with_next_run (get_next_fire_time tr (clock s))
                              (with_job (Some j) (with_enabled true t)))).
Proof.
  intros Ha Ht. simpl. split.
  - by apply (enable_task_enabled _ _ a t).
  - intros He tr Htr Hj.
    rewrite (enable_task_scheduled _ _ _ _ _ Ha Ht He Htr Hj). simpl.
    split_and!; try done.
    exists (fresh (dom (job_objects s))). split_and!; try done.
    + apply not_elem_of_dom, is_fresh.
    + by rewrite !lookup_alter_eq, Ht.
Qed.

(** X13: A failed [enable_task] is not undone: when the schedule of a
    disabled task gives no trigger (invalid or rejected), or the engine
    already holds the id, the call returns [False] but the task stays
    marked enabled, with no job added; a second [enable_task] then
    returns [True] and still schedules nothing. *)
Theorem failed_enable_sticks id (s : scheduler W) a t :
  tasks s !! id = Some a → task_objects s !! a = Some t → enabled t = false →
  (∀ tr, (make_trigger (schedule t) s).1 = Ret (Some tr) →
         is_Some (jobstore s !! id)) →
  let out := enable_task id s in
  out.1 = Ret false
  ∧ task_objects out.2 !! a = Some (with_enabled true t)
  ∧ jobstore out.2 = jobstore s
  ∧ job_objects out.2 = job_objects s
  ∧ tasks out.2 = tasks s
  ∧ enable_task id out.2 = (Ret true, out.2).
Proof.
  intros Ha Ht He Hno. simpl.
  rewrite (enable_task_refused _ _ _ _ Ha Ht He Hno). simpl.
  assert (Ht' : alter (with_enabled true) a (task_objects s) !! a
                = Some (with_enabled true t)).
  { by rewrite lookup_alter_eq, Ht. }
  split_and!; try done.
  by apply (enable_task_enabled _ _ a (with_enabled true t)).
Qed.

(** X14: Disabling and enabling again restores the schedule: for an enabled
    task whose job the engine holds and whose schedule gives a trigger,
    [disable_task] followed by [enable_task] returns [True] and leaves
    the task enabled with its id, name, schedule and last run as they
    were, a job with that trigger registered under its id and bound to
    it, and the next run computed from the trigger; the engine's other
    jobs are as before. *)
Theorem disable_enable_round_trip id (s : scheduler W) a t tr :
  tasks s !! id = Some a → task_objects s !! a = Some t → enabled t = true →
  is_Some (job t) → is_Some (jobstore s !! id) →
  (make_trigger (schedule t) s).1 = Ret (Some tr) →
  let out := enable_task id (disable_task JobLookupError id s).2 in
  out.1 = Ret true
  ∧ get_task id out.2
    = Some {| ti_id := task_id t; ti_name := name t;
              ti_schedule := schedule t; ti_enabled := true;
              ti_last_run := last_run t;
              ti_next_run := get_next_fire_time tr (clock s) |}
  ∧ (∃ j jb, jobstore out.2 !! id = Some j
             ∧ job_objects out.2 !! j = Some jb
             ∧ job_trigger jb = tr ∧ job_args jb = a
             ∧ (task_objects out.2 !! a ≫= job) = Some j)
  ∧ ∀ id', id' ≠ id → jobstore out.2 !! id' = jobstore s !! id'.
Proof.
  intros Ha Ht He [j0 Hj0] [j1 Hj1] Htr. simpl.
  rewrite (disable_task_known _ _ _ _ Ha Ht), He, Hj0, Hj1. simpl.
  set (t1 := with_next_run None (with_job None (with_enabled false t))).
  set (s1 := set_task_objects _ _).
  assert (Ht1 : task_objects s1 !! a = Some t1).
  { subst s1 t1. simpl. by rewrite !lookup_alter_eq, Ht. }
  assert (Htr1 : (make_trigger (schedule t1) s1).1 = Ret (Some tr)).
  { destruct (make_trigger_pure (schedule t)) as [r [Hr Hexc]].
    rewrite Hr in Htr. change (schedule t1) with (schedule t). by rewrite Hr. }
  assert (Hfree : jobstore s1 !! id = None) by apply lookup_delete_eq.
  rewrite (enable_task_scheduled id s1 a t1 tr Ha Ht1 eq_refl Htr1 Hfree).
  simpl. split_and!.
  - done.
  - unfold get_task. simpl. rewrite Ha. simpl.
    rewrite !lookup_alter_eq, Ht. done.
  - eexists _, _. split_and!.
    + apply lookup_insert_eq.
    + apply lookup_insert_eq.
    + done.
    + done.
    + rewrite !lookup_alter_eq, Ht. done.
  - intros id' Hne. rewrite lookup_insert_ne by done.
    by rewrite lookup_delete_ne.
Qed.

Lemma remove_task_unknown id (s : scheduler W) :
  tasks s !! id = None → remove_task JobLookupError id s = (Ret false, s).
Proof. intros H. unfold remove_task. run. by rewrite H. Qed.

Lemma remove_task_known id (s : scheduler W) a :
  tasks s !! id = Some a →
  remove_task JobLookupError id s
  = match task_objects s !! a ≫= job, jobstore s !! id with
    | None, _ => (Ret true, set_tasks (delete id) s)
    | Some _, Some _ =>
        (Ret true, set_tasks (delete id) (set_jobstore (delete id) s))
    | Some _, None => (Ret false, s)
    end.
Proof.
  intros Ha. unfold remove_task, remove_job. run. rewrite Ha.
  destruct (task_objects s !! a) as [t|]; simpl; [|done].
  destruct (job t); simpl; [|done].
  destruct (jobstore s !! id); done.
Qed.

(** X15: [remove_task] never raises and never touches the task or job
    objects.  An unknown id gives [False] with no effect.  For a known
    id the entry is deleted and [True] returned, after the engine's job
    was removed when the task holds one; when the task holds a job that
    the engine does not know, the call returns [False] and the entry
    stays.  After a [True], [get_task] finds nothing and a second
    [remove_task] returns [False] with no effect. *)
Theorem remove_task_outcomes id (s : scheduler W) :
  let out := remove_task JobLookupError id s in
  (∃ b, out.1 = Ret b)
  ∧ (tasks s !! id = None → out = (Ret false, s))
  ∧ (∀ a, tasks s !! id = Some a →
       let held := task_objects s !! a ≫= job in
       (held = None →
          out = (Ret true, set_tasks (delete id) s))
       ∧ (is_Some held → is_Some (jobstore s !! id) →
          out = (Ret true, set_tasks (delete id) (set_jobstore (delete id) s)))
       ∧ (is_Some held → jobstore s !! id = None → out = (Ret false, s)))
  ∧ (out.1 = Ret true →
       get_task id out.2 = None
       ∧ remove_task JobLookupError id out.2 = (Ret false, out.2)).
Proof.
  simpl.
  destruct (tasks s !! id) as [a|] eqn:Ha.
  2: { rewrite (remove_task_unknown _ _ Ha). split_and!; eauto; done. }
  rewrite (remove_task_known _ _ _ Ha).
  assert (Hgone : ∀ s' : scheduler W,
            tasks s' = tasks s → task_objects s' = task_objects s →
            get_task id (set_tasks (delete id) s') = None
            ∧ remove_task JobLookupError id (set_tasks (delete id) s')
              = (Ret false, set_tasks (delete id) s')).
  { intros s' _ _. split.
    - unfold get_task. simpl. by rewrite lookup_delete_eq.
    - apply remove_task_unknown. simpl. apply lookup_delete_eq. }
  destruct (task_objects s !! a ≫= job) as [j|] eqn:Hj;
    [destruct (jobstore s !! id) as [j'|] eqn:Hj'|]; simpl.
  all: split_and!; eauto; try done;
    try (intros _; by apply Hgone);
    intros a' [= <-]; rewrite Hj; simpl; split_and!; try done;
    try (by intros [? [=]]); try (by intros _ [? [=]]).
Qed.

(** X16: [add_task] under an id that is already in use.  With
    [enabled=True] and a job of that id in the engine, the call returns
    [False] whatever the schedule is, and the task table and the
    engine's jobs are unchanged.  With [enabled=False] nothing is
    checked: the call returns [True], the table entry is replaced by a
    new task object, and the engine's jobs, which still refer to the
    task objects they were created with, are left in place. *)
Theorem add_task_over_existing_id id nm f sch (s : scheduler W) :
  (is_Some (jobstore s !! id) →
     let out := add_task id nm f sch true s in
     out.1 = Ret false ∧ tasks out.2 = tasks s
     ∧ jobstore out.2 = jobstore s ∧ job_objects out.2 = job_objects s)
  ∧ (let out := add_task id nm f sch false s in
     out.1 = Ret true
     ∧ jobstore out.2 = jobstore s ∧ job_objects out.2 = job_objects s
     ∧ ∃ a, task_objects s !! a = None
            ∧ tasks out.2 = <[id := a]> (tasks s)
            ∧ task_objects out.2
              = <[a := {| task_id := id; name := nm; func := f;
                          schedule := sch; enabled := false;
                          last_run := None; next_run := None;
                          job := None |}]> (task_objects s)).
Proof.
  split.
  - intros [j Hj]. simpl.
    destruct (make_trigger_pure sch) as [r [Hr Hexc]].
    unfold add_task, new_task, add_job. run. rewrite Hr. simpl.
    destruct r as [[tr|]|e]; simpl; try done.
    + rewrite Hj. done.
    + by rewrite (Hexc e eq_refl).
  - simpl. unfold add_task, new_task. run. split_and!; try done.
    exists (fresh (dom (task_objects s))). split_and!; try done.
    apply not_elem_of_dom, is_fresh.
Qed.

(** X17: A schedule that croniter accepts is handled as a cron expression
    and never as an interval: when [CronTrigger.from_crontab] accepts it
    too and the id is free, the task is registered with a cron job and
    [get_task] shows it with no last run and the job's next run; when
    [from_crontab] rejects it, [add_task] returns [False] and registers
    nothing, whether or not the string would also read as an
    interval. *)
Theorem add_task_cron_path id nm f sch (s : scheduler W) :
  croniter sch = true →
  let out := add_task id nm f sch true s in
  (from_crontab sch = false →
     out.1 = Ret false ∧ tasks out.2 = tasks s ∧ jobstore out.2 = jobstore s)
  ∧ (from_crontab sch = true → jobstore s !! id = None →
     out.1 = Ret true
     ∧ get_task id out.2
       = Some {| ti_id := id; ti_name := nm; ti_schedule := sch;
                 ti_enabled := true; ti_last_run := None;
                 ti_next_run :=
                   get_next_fire_time (CronTrigger sch) (clock s) |}
     ∧ ∃ j jb, jobstore out.2 !! id = Some j
               ∧ job_objects out.2 !! j = Some jb
               ∧ job_trigger jb = CronTrigger sch
               ∧ tasks out.2 !! id = Some (job_args jb)).
Proof.
  intros Hcron. simpl.
  unfold add_task, new_task, make_trigger, add_job, _is_cron_schedule.
  run. rewrite Hcron. split.
  - intros ->. done.
  - intros -> Hfree. simpl. rewrite Hfree. simpl. split_and!.
    + done.
    + unfold get_task. simpl.
      repeat (rewrite ?lookup_alter_eq, ?lookup_insert_eq; simpl). done.
    + eexists _, _. split_and!.
      * apply lookup_insert_eq.
      * apply lookup_insert_eq.
      * done.
      * simpl. apply lookup_insert_eq.
Qed.

End Lifecycle.

Lemma strip_signed c ds :
  is_space c = false → ds ≠ [] → Forall (λ a, is_digit a = true) ds →
  strip (c :: ds) = c :: ds.
Proof.
  intros Hc Hne Hd. unfold strip. simpl lstrip at 2. rewrite Hc.
  simpl rev at 2.
  assert (Hr : Forall (λ a, is_digit a = true) (rev ds)) by by apply Forall_rev.
  destruct (rev ds) as [|b l] eqn:Erev.
  - apply (f_equal (@length _)) in Erev. rewrite length_rev in Erev.
    by destruct ds.
  - apply Forall_cons in Hr as [Hb _].
    change ((b :: l) ++ [c]) with (b :: (l ++ [c])).
    rewrite lstrip_digit by done.
    change (b :: (l ++ [c])) with ((b :: l) ++ [c]).
    rewrite <- Erev, rev_unit, rev_involutive. done.
Qed.

Lemma py_int_signed c ds :
  c = "-"%char ∨ c = "+"%char →
  ds ≠ [] → Forall (λ a, is_digit a = true) ds →
  py_int (c :: ds)
  = if bool_decide (int_max_str_digits < length ds)%nat then Raise ValueError
    else Ret (if Ascii.eqb c "-" then - decimal ds else decimal ds).
Proof.
  intros Hc Hne Hd.
  assert (Hp : parse_digits ds 0 false = Some (decimal ds)).
  { apply parse_digits_digits; auto. }
  assert (Hn : count_digits (c :: ds) = length ds).
  { rewrite <- (count_digits_digits ds Hd). unfold count_digits.
    rewrite filter_cons_False; [done|]. by destruct Hc as [-> | ->]. }
  unfold py_int. rewrite Hn.
  rewrite strip_signed; [|by destruct Hc as [-> | ->]|done..].
  destruct Hc as [-> | ->]; rewrite Hp; simpl; by case_bool_decide.
Qed.

(** X18: [_parse_interval] reads the number with Python's [int], so a sign is
    accepted: for at most 4300 digits, a minus sign before the digits
    gives a negative number of seconds and a plus sign gives the same as
    no sign; for more than 4300 digits [int] refuses the text and both
    raise [ValueError].  A unit letter with nothing before it raises
    [ValueError]. *)
Theorem parse_interval_signs ds u k :
  ds ≠ [] → Forall (λ a, is_digit a = true) ds → unit_seconds u = Some k →
  ((length ds ≤ int_max_str_digits)%nat →
   _parse_interval (string_of_list_ascii ("-"%char :: ds ++ [u]))
   = Ret (- decimal ds * k)
   ∧ _parse_interval (string_of_list_ascii ("+"%char :: ds ++ [u]))
     = Ret (decimal ds * k))
  ∧ ((int_max_str_digits < length ds)%nat →
     _parse_interval (string_of_list_ascii ("-"%char :: ds ++ [u]))
     = Raise ValueError
     ∧ _parse_interval (string_of_list_ascii ("+"%char :: ds ++ [u]))
       = Raise ValueError)
  ∧ _parse_interval (string_of_list_ascii [u]) = Raise ValueError.
Proof.
  intros Hne Hd Hu.
  pose proof (py_int_signed "-" ds (or_introl eq_refl) Hne Hd) as Hminus.
  pose proof (py_int_signed "+" ds (or_intror eq_refl) Hne Hd) as Hplus.
  simpl in Hminus, Hplus.
  unfold _parse_interval.
  rewrite !list_ascii_of_string_of_list_ascii.
  rewrite !app_comm_cons, !endswith_snoc, !drop_last_snoc, Hminus, Hplus.
  change [u] with ([] ++ [u]). rewrite !endswith_snoc, drop_last_snoc.
  unfold unit_seconds in Hu.
  split_and!.
  - intros Hlen. rewrite bool_decide_eq_false_2 by lia.
    repeat case_match; simplify_eq; split_and!; try done; f_equal; lia.
  - intros Hlen. rewrite bool_decide_eq_true_2 by lia.
    repeat case_match; simplify_eq; done.
  - repeat case_match; simplify_eq; done.
Qed.

(** *** The theorems at work *)

Import Examples.

Lemma enable_task_schedules_witness :
  (enable_task "t1" (add_task "t1" "T" succeeding "5m" false idle).2).1
  = Ret true.
Proof.
  pose proof (enable_task_schedules "t1"
                (add_task "t1" "T" succeeding "5m" false idle).2 0%nat
                {| task_id := "t1"; name := "T"; func := succeeding;
                   schedule := "5m"; enabled := false; last_run := None;
                   next_run := None; job := None |}
                ltac:(by vm_compute) ltac:(by vm_compute)) as [_ H].
  destruct (H eq_refl (IntervalTrigger 300)) as [Hret _]; [by vm_compute..|].
  exact Hret.
Defined.

Lemma failed_enable_sticks_witness :
  (enable_task "t1" (add_task "t1" "T" succeeding "5x" false idle).2).1
  = Ret false
  ∧ enable_task "t1"
      (enable_task "t1" (add_task "t1" "T" succeeding "5x" false idle).2).2
    = (Ret true,
       (enable_task "t1" (add_task "t1" "T" succeeding "5x" false idle).2).2).
Proof.
  pose proof (failed_enable_sticks "t1"
                (add_task "t1" "T" succeeding "5x" false idle).2 0%nat
                {| task_id := "t1"; name := "T"; func := succeeding;
                   schedule := "5x"; enabled := false; last_run := None;
                   next_run := None; job := None |}
                ltac:(by vm_compute) ltac:(by vm_compute) eq_refl) as H.
  destruct H as (Hret & _ & _ & _ & _ & Hagain).
  - intros tr Htr. by vm_compute in Htr.
  - by split.
Defined.

Lemma disable_enable_round_trip_witness :
  (enable_task "t1"
     (disable_task ValueError "t1"
        (add_task "t1" "T" succeeding "5m" true idle).2).2).1 = Ret true.
Proof.
  pose proof (disable_enable_round_trip ValueError "t1"
                (add_task "t1" "T" succeeding "5m" true idle).2 0%nat
                {| task_id := "t1"; name := "T"; func := succeeding;
                   schedule := "5m"; enabled := true; last_run := None;
                   next_run := Some 1300; job := Some 0%nat |}
                (IntervalTrigger 300)
                ltac:(by vm_compute) ltac:(by vm_compute) eq_refl
                ltac:(by eexists) ltac:(by (exists 0%nat; vm_compute))
                ltac:(by vm_compute)) as [Hret _].
  exact Hret.
Defined.

Lemma add_task_cron_path_witness :
  (add_task "health_check" "System Health Check" succeeding "*/5 * * * *"
     true idle).1 = Ret true.
Proof.
  pose proof (add_task_cron_path "health_check" "System Health Check"
                succeeding "*/5 * * * *" idle ltac:(by vm_compute)) as [_ H].
  destruct H as [Hret _]; [by vm_compute..|]. exact Hret.
Defined.

Lemma parse_interval_signs_witness :
  _parse_interval "-5m" = Ret (-300)
  ∧ _parse_interval "+5m" = Ret 300
  ∧ _parse_interval "m" = Raise ValueError.
Proof.
  destruct (parse_interval_signs ["5"%char] "m"%char 60) as (Hshort & _ & Hunit);
    [done | by repeat constructor | done |].
  destruct Hshort as [Hminus Hplus]; [vm_compute; lia|].
  exact (conj Hminus (conj Hplus Hunit)).
Defined.

End SchedulerMore.


(** ** Backup coordinator *)

Module BackupManagerMore.
Import Py Py.Notations BackupManager BackupManagerProps.
Local Open Scope py_scope.
Local Open Scope list_scope.

(** *** Names *)





Lemma is_backup_name_temp ts : is_backup_name (temp_dir_of ts) = false.
Proof. by vm_compute. Qed.




(** *** Removing files *)

Section Housekeeping.
Context (refused : string → bool).
Context (delete_elsewhere : string → gmap string node → bool * gmap string node).

Lemma unlink_file_effect path s :
  unlink_file refused path s
  = match backup_dir s !! path with
    | Some n =>
        if refused path || is_dir n
        then (Raise OSError, logged (EvUnlink path) s)
        else (Ret tt, set_backup_dir (delete path) (logged (EvUnlink path) s))
    | None => (Raise OSError, logged (EvUnlink path) s)
    end.
Proof.
  unfold unlink_file, log, fail_if. run.
  destruct (refused path); simpl.
  - by destruct (backup_dir s !! path).
  - destruct (backup_dir s !! path) as [n|]; [|done]. by destruct (is_dir n).
Qed.

Lemma delete_backup_effect fname s :
  plain_name fname = true →
  delete_backup refused delete_elsewhere fname s
  = match backup_dir s !! fname with
    | Some n =>
        if is_dangling n then (Ret false, s)
        else if refused fname || is_dir n
        then (Ret false, logged (EvUnlink fname) s)
        else (Ret true, set_backup_dir (delete fname) (logged (EvUnlink fname) s))
    | None => (Ret false, s)
    end.
Proof.
  intros Hplain. unfold delete_backup. rewrite Hplain.
  unfold exists_, try_except, bind at 1 2.
  unfold get at 1, ret at 1. simpl.
  destruct (backup_dir s !! fname) as [n|] eqn:Hn; [|done].
  destruct (is_dangling n); simpl; [done|].
  unfold bind. rewrite unlink_file_effect, Hn.
  by destruct (refused fname || is_dir n).
Qed.

(** X19: [delete_backup] with a name that is one path component (so that it
    names a child of the backup directory) never raises.  A name that
    is not in the backup directory gives [False] with no effect.  A
    name that is there gives [True] exactly when it is a file, not a
    link whose target is missing, that the filesystem lets go; then
    only that name is removed, [list_backups] no longer shows it, and a
    second [delete_backup] gives [False].  Whenever the result is
    [False] the backup directory is as it was.  The name is not
    required to be that of a backup. *)
Theorem delete_backup_outcomes fname s :
  plain_name fname = true →
  let out := delete_backup refused delete_elsewhere fname s in
  (∃ b, out.1 = Ret b)
  ∧ (backup_dir s !! fname = None → out = (Ret false, s))
  ∧ (∀ n, backup_dir s !! fname = Some n →
          (out.1 = Ret true
           ↔ is_dir n = false ∧ is_dangling n = false ∧ refused fname = false))
  ∧ (out.1 = Ret true →
       backup_dir out.2 = delete fname (backup_dir s)
       ∧ (∀ b, b ∈ list_backups out.2 → filename b ≠ fname)
       ∧ delete_backup refused delete_elsewhere fname out.2 = (Ret false, out.2))
  ∧ (out.1 = Ret false → backup_dir out.2 = backup_dir s).
Proof.
  intros Hplain. simpl. rewrite delete_backup_effect by done.
  destruct (backup_dir s !! fname) as [n|] eqn:Hn.
  2: { split_and!; eauto; done. }
  destruct (is_dangling n) eqn:Hl.
  { split_and!; eauto; try done. intros n' [= <-]. rewrite Hl.
    split; [done | by intros (_ & ? & _)]. }
  destruct (refused fname) eqn:Hr, (is_dir n) eqn:Hd; simpl.
  1-3: split_and!; eauto; try done; intros n' [= <-]; rewrite Hd;
    (split; [done | intros (? & ? & ?); done]).
  split_and!; eauto; try done.
  - intros n' [= <-]. by rewrite Hd, Hl.
  - intros _. split_and!; [done| |].
    + intros b Hb%list_backups_names Heq. rewrite Heq in Hb. simpl in Hb.
      rewrite lookup_delete_eq in Hb. by destruct Hb.
    + rewrite delete_backup_effect by done. simpl. by rewrite lookup_delete_eq.
Qed.

(** *** Retention *)

Lemma sweep_cons cutoff k n rest s :
  sweep refused cutoff ((k, n) :: rest) s
  = if can_examine n then
      if bool_decide (n_mtime n < cutoff) then
        match unlink_file refused k s with
        | (Ret _, s1) => sweep refused cutoff rest s1
        | (Raise e, s1) => (Raise e, s1)
        end
      else sweep refused cutoff rest s
    else (Raise (Exception (if is_dangling n then OSError else ValueError)), s).
Proof.
  cbn [sweep]. unfold bind, of_result, stat, fromtimestamp, can_examine.
  destruct (is_dangling n); simpl; [done|].
  destruct (is_datetime (n_mtime n)); simpl; [|done].
  case_bool_decide; [|done].
  by destruct (unlink_file refused k s) as [[[]|e] s1].
Qed.

Lemma sweep_effect cutoff found s :
  NoDup found.*1 →
  (∀ k n, (k, n) ∈ found → backup_dir s !! k = Some n) →
  ∃ r s',
    sweep refused cutoff found s = (r, s')
    ∧ (r = Ret tt ∨ ∃ e : exception, r = Raise e)
    ∧ (∀ k, backup_dir s' !! k = backup_dir s !! k
            ∨ backup_dir s' !! k = None
              ∧ ∃ n, (k, n) ∈ found ∧ n_mtime n < cutoff
                     ∧ is_dir n = false ∧ can_examine n = true
                     ∧ refused k = false)
    ∧ ((∀ k n, (k, n) ∈ found → can_examine n = true) →
       (∀ k n, (k, n) ∈ found → n_mtime n < cutoff →
               refused k = false ∧ is_dir n = false) →
       ∀ k n, (k, n) ∈ found → n_mtime n < cutoff →
              backup_dir s' !! k = None).
Proof.
  revert s. induction found as [|[k n] found IH]; intros s Hnd Hin.
  - exists (Ret tt), s. split_and!; eauto.
    intros _ _ k n Hk. by apply elem_of_nil in Hk.
  - rewrite fmap_cons in Hnd. apply NoDup_cons in Hnd as [Hk Hnd].
    assert (Hkn : backup_dir s !! k = Some n) by (apply Hin, list_elem_of_here).
    assert (Hrest : ∀ s1, (∀ k', k' ≠ k → backup_dir s1 !! k' = backup_dir s !! k') →
              ∀ k' n', (k', n') ∈ found → backup_dir s1 !! k' = Some n').
    { intros s1 Hs1 k' n' Hin'. rewrite Hs1.
      - apply Hin. by apply list_elem_of_further.
      - intros ->. apply Hk. apply list_elem_of_fmap. by exists (k, n'). }
    rewrite sweep_cons.
    destruct (can_examine n) eqn:Hex.
    2: { do 2 eexists. split; [done|]. split_and!; eauto.
         intros Hall. rewrite (Hall k n) in Hex; [done|]. apply list_elem_of_here. }
    case_bool_decide as Hold.
    + rewrite unlink_file_effect, Hkn.
      destruct (refused k || is_dir n) eqn:Hbad.
      * do 2 eexists. split; [done|]. split_and!; eauto.
        intros _ Hall. destruct (Hall k n) as [Hr Hd];
          [apply list_elem_of_here | done |].
        rewrite Hr, Hd in Hbad. done.
      * apply orb_false_iff in Hbad as [Hr Hd].
        set (s1 := set_backup_dir (delete k) (logged (EvUnlink k) s)).
        destruct (IH s1 Hnd) as (r & s' & Hsw & Hres & Honly & Hall).
        { apply Hrest. intros k' Hne. simpl. by rewrite lookup_delete_ne. }
        exists r, s'. split; [done|]. split; [done|]. split.
        -- intros k'. destruct (decide (k' = k)) as [->|Hne].
           ++ right. split.
              ** destruct (Honly k) as [-> | [-> _]]; [|done].
                 simpl. apply lookup_delete_eq.
              ** exists n. split_and!; try done. apply list_elem_of_here.
           ++ destruct (Honly k') as [-> | [-> (n' & ? & ?)]].
              ** left. simpl. by rewrite lookup_delete_ne.
              ** right. split; [done|]. exists n'.
                 split; [by apply list_elem_of_further | done].
        -- intros Hexs Hok k' n' [[= -> ->] | Hin']%elem_of_cons Hold'.
           ++ destruct (Honly k) as [-> | [-> _]]; [|done].
              simpl. apply lookup_delete_eq.
           ++ eapply Hall; [| |done..].
              ** intros k2 n2 Hin2. apply (Hexs k2). by apply list_elem_of_further.
              ** intros k2 n2 Hin2. apply Hok. by apply list_elem_of_further.
    + destruct (IH s Hnd) as (r & s' & Hsw & Hres & Honly & Hall).
      { apply Hrest. done. }
      exists r, s'. split; [done|]. split; [done|]. split.
      * intros k'. destruct (Honly k') as [-> | [-> (n' & ? & ?)]]; [by left|].
        right. split; [done|]. exists n'.
        split; [by apply list_elem_of_further | done].
      * intros Hexs Hok k' n' [[= -> ->] | Hin']%elem_of_cons Hold'; [done|].
        eapply Hall; [| |done..].
        -- intros k2 n2 Hin2. apply (Hexs k2). by apply list_elem_of_further.
        -- intros k2 n2 Hin2. apply Hok. by apply list_elem_of_further.
Qed.

Lemma _cleanup_old_backups_cases retention_days s :
  let cutoff := time s - retention_days * 86400000000 in
  _cleanup_old_backups refused retention_days s
  = if (Z.abs retention_days <=? 999999999) && is_datetime cutoff then
      match sweep refused cutoff
              (filter (λ kn, is_backup_name kn.1 = true)
                      (map_to_list (backup_dir s))) s with
      | (Ret _, s') => (Ret tt, s')
      | (Raise e, s') => if is_exception e then (Ret tt, s') else (Raise e, s')
      end
    else (Ret tt, s).
Proof.
  simpl. unfold _cleanup_old_backups, try_except, bind, get, of_result,
    timedelta_days, datetime_sub. simpl.
  destruct (Z.abs retention_days <=? 999999999); simpl; [|done].
  destruct (is_datetime _); simpl; [|done].
  by destruct (sweep _ _ _ _) as [[[]|e] s'].
Qed.

Lemma _cleanup_old_backups_effect retention_days s :
  let cutoff := time s - retention_days * 86400000000 in
  let cutoff_ok := (Z.abs retention_days <=? 999999999) && is_datetime cutoff in
  let out := _cleanup_old_backups refused retention_days s in
  out.1 = Ret tt
  ∧ (∀ k, backup_dir out.2 !! k = backup_dir s !! k
          ∨ backup_dir out.2 !! k = None
            ∧ cutoff_ok = true
            ∧ ∃ n, backup_dir s !! k = Some n ∧ expired cutoff k n
                   ∧ is_dir n = false ∧ can_examine n = true
                   ∧ refused k = false)
  ∧ (cutoff_ok = false → out = (Ret tt, s))
  ∧ (cutoff_ok = true → examinable s →
     (∀ k n, backup_dir s !! k = Some n → expired cutoff k n →
             refused k = false ∧ is_dir n = false) →
     ∀ k n, backup_dir s !! k = Some n → expired cutoff k n →
            backup_dir out.2 !! k = None).
Proof.
  cbv zeta. rewrite _cleanup_old_backups_cases. cbv zeta.
  set (cutoff := time s - retention_days * 86400000000).
  destruct ((Z.abs retention_days <=? 999999999) && is_datetime cutoff);
    [|split_and!; auto; done].
  set (found := filter (λ kn, is_backup_name kn.1 = true)
                       (map_to_list (backup_dir s))).
  assert (Hfound : ∀ k n, (k, n) ∈ found
                          ↔ is_backup_name k = true ∧ backup_dir s !! k = Some n).
  { intros k n. unfold found.
    by rewrite list_elem_of_filter, elem_of_map_to_list. }
  destruct (sweep_effect cutoff found s) as (r & s' & -> & Hres & Honly & Hall).
  { unfold found. apply (sublist_NoDup _ (map_to_list (backup_dir s)).*1);
      [apply NoDup_fst_map_to_list|].
    apply fmap_sublist, sublist_filter. }
  { intros k n Hin. by apply Hfound in Hin as [_ ?]. }
  assert (Hstate : ∀ k,
            backup_dir s' !! k = backup_dir s !! k
            ∨ backup_dir s' !! k = None
              ∧ true = true
              ∧ ∃ n, backup_dir s !! k = Some n ∧ expired cutoff k n
                     ∧ is_dir n = false ∧ can_examine n = true
                     ∧ refused k = false).
  { intros k. destruct (Honly k) as [? | [? (n & Hin & ? & ? & ? & ?)]]; [by left|].
    apply Hfound in Hin as [? ?]. right. split; [done|]. split; [done|].
    exists n. by split_and!. }
  assert (Hcomplete :
            true = true → examinable s →
            (∀ k n, backup_dir s !! k = Some n → expired cutoff k n →
                    refused k = false ∧ is_dir n = false) →
            ∀ k n, backup_dir s !! k = Some n → expired cutoff k n →
                   backup_dir s' !! k = None).
  { intros _ Hex Hok k n Hk [Hname Hold].
    eapply Hall; [| | by apply Hfound | done].
    - intros k' n' [? ?]%Hfound. by apply (Hex k').
    - intros k' n' [? ?]%Hfound ?. by apply Hok. }
  destruct Hres as [-> | [e ->]]; simpl; split_and!; done.
Qed.


(** X21: What is not named like a backup is out of reach of the listing and
    of the retention sweep: a staging directory [temp_<timestamp>] that
    a failed cleanup left behind is never listed and never removed,
    however old it is. *)
Theorem staging_leftovers_stay timestamp retention_days s :
  (∀ b, b ∈ list_backups s → filename b ≠ temp_dir_of timestamp)
  ∧ backup_dir (_cleanup_old_backups refused retention_days s).2
      !! temp_dir_of timestamp
    = backup_dir s !! temp_dir_of timestamp.
Proof.
  split.
  - intros b (k & n & _ & Hname & _ & ->)%elem_of_list_backups_1. simpl.
    intros ->. by rewrite is_backup_name_temp in Hname.
  - destruct (_cleanup_old_backups_effect retention_days s) as (_ & Honly & _).
    destruct (Honly (temp_dir_of timestamp))
      as [? | [_ (_ & n & _ & [Hname _] & _)]]; [done|].
    by rewrite is_backup_name_temp in Hname.
Qed.

End Housekeeping.

(** *** A backup that succeeds *)

Section Success.
Context (temp : string) (s0 : fs).


Lemma staging_log e es d s1 :
  staging temp es d s0 s1 → staging temp es d s0 (logged e s1).
Proof. done. Qed.

Lemma staging_stage e es d s1 :
  staging temp es d s0 s1 →
  staging temp (es ++ [e]) d s0
    (set_backup_dir (alter (add_entry e) temp) s1).
Proof.
  intros (? & ? & ? & ? & ? & Ht & Ho). unfold staging. simpl.
  split_and!; try done.
  - by rewrite lookup_alter_eq, Ht.
  - intros k Hk. rewrite lookup_alter_ne by done. auto.
Qed.





End Success.



(** *** The theorems at work *)

Import Examples.

Lemma a_broken_link_empties_the_listing :
  filename <$> list_backups one_backup
  = ["orchestrator_backup_20231114_221320.tar.gz"]
  ∧ list_backups broken_link = [].
Proof. split; vm_compute; reflexivity. Qed.

(** Thirty days of retention remove the earlier archive; a number of days
    that [timedelta] does not hold, or a cutoff beyond the year 9999,
    removes nothing. *)
Lemma retention_examples :
  backup_dir (_cleanup_old_backups (λ _, false) 30 one_backup).2 = ∅
  ∧ _cleanup_old_backups (λ _, false) 1000000000 one_backup
    = (Ret tt, one_backup)
  ∧ _cleanup_old_backups (λ _, false) (-3000000) one_backup
    = (Ret tt, one_backup).
Proof. split_and!; vm_compute; reflexivity. Qed.

Lemma delete_backup_outcomes_witness :
  (delete_backup (λ _, false) (λ _ d, (false, d))
     "orchestrator_backup_20231114_221320.tar.gz" one_backup).1 = Ret true.
Proof.
  destruct (delete_backup_outcomes (λ _, false) (λ _ d, (false, d))
              "orchestrator_backup_20231114_221320.tar.gz" one_backup eq_refl)
    as (_ & _ & Hiff & _).
  apply (Hiff earlier_archive); [by vm_compute | done].
Defined.


End BackupManagerMore.
